(** * Book API (index.js): a shallow embedding and its verified properties

    The service keeps one process-wide array [books] and serves seven
    routes under /api/books behind a fixed-window rate limiter.  Every
    handler of index.js is embedded as a function from the request and the
    current array to a response and the next array; exceptions raised by
    the JavaScript runtime (a method call on a value that has no such
    method) are explicit, and the global error handler turns them into the
    500 response.

    A JavaScript string is represented by its UTF-8 encoding (strings are
    taken to be well-formed Unicode). *)

From stdpp Require Import base option list gmap strings fin_maps.
From Stdlib Require Import ZArith Lia Ascii.

Local Open Scope string_scope.
Local Open Scope list_scope.
Local Open Scope Z_scope.

(** ** JavaScript values *)

(** A JavaScript number as the handlers meet it: the numbers they compute
    (ids, [parseInt] results, their sums and products) are doubles with an
    integer value, NaN ([parseInt] of a string without digits) or an
    infinity.  Fractions are outside this model, and -0 is not told from
    0 (nothing here can tell them apart). *)
Inductive number :=
  | NaN
  | Num (z : Z)
  | Infinity (positive : bool).

(** The double nearest to the integer [z] (ties to the even significand):
    [z] itself below 2^53, else [z] rounded to 53 significant bits, an
    infinity from 2^1024 on. *)
Definition roundDouble (z : Z) : number :=
  let a := Z.abs z in
  if a <? 2 ^ 53 then Num z
  else
    let e := Z.log2 a - 52 in
    let q := a / 2 ^ e in
    let r := a mod 2 ^ e in
    let half := 2 ^ (e - 1) in
    let q' := if (half <? r) || ((r =? half) && Z.odd q) then q + 1 else q in
    let v := q' * 2 ^ e in
    if 2 ^ 1024 <=? v then Infinity (0 <? z) else Num (Z.sgn z * v).

(** A value read from a parsed JSON body.  [VUndefined] is what
    destructuring yields for a field the body does not have.  A number is
    given by the integer its numeral denotes. *)
#[warnings="-register-all"]
Inductive value :=
  | VUndefined
  | VNull
  | VBool (b : bool)
  | VNum (n : Z)
  | VStr (s : string)
  | VArr (items : list value)
  | VObj (fields : list (string * value)).

(** ToBoolean: the test behind [if (v)], [!v], [a && b] and [a || b]. *)
Definition truthy (v : value) : bool :=
  match v with
  | VUndefined | VNull => false
  | VBool b => b
  | VNum n => negb (n =? 0)
  | VStr s => negb (String.eqb s "")
  | VArr _ | VObj _ => true
  end.

(** ToBoolean of a string that may be absent (a header, a query parameter). *)
Definition truthy_str (o : option string) : bool :=
  match o with
  | Some s => negb (String.eqb s "")
  | None => false
  end.

(** [a || b] on values. *)
Definition or_else (a b : value) : value := if truthy a then a else b.

(** [x === y] between two numbers: NaN equals nothing, itself included. *)
Definition strictEq (x y : number) : bool :=
  match x, y with
  | Num a, Num b => a =? b
  | Infinity s, Infinity t => Bool.eqb s t
  | _, _ => false
  end.

(** [v !== n] between a body value and a number: values of another type
    always differ; a number of the body is the double its numeral was
    parsed to. *)
Definition strictNe (v : value) (n : number) : bool :=
  match v with
  | VNum a => negb (strictEq (roundDouble a) n)
  | _ => true
  end.

(** Number arithmetic used by the pagination, with the rounding and the
    special values of doubles. *)
Definition num_neg (x : number) : number :=
  match x with
  | NaN => NaN
  | Num a => Num (- a)
  | Infinity s => Infinity (negb s)
  end.

Definition num_add (x y : number) : number :=
  match x, y with
  | NaN, _ | _, NaN => NaN
  | Num a, Num b => roundDouble (a + b)
  | Infinity s, Num _ | Num _, Infinity s => Infinity s
  | Infinity s, Infinity t => if Bool.eqb s t then Infinity s else NaN
  end.

Definition num_sub (x y : number) : number := num_add x (num_neg y).

Definition num_mul (x y : number) : number :=
  match x, y with
  | NaN, _ | _, NaN => NaN
  | Num a, Num b => roundDouble (a * b)
  | Infinity s, Num b | Num b, Infinity s =>
      if b =? 0 then NaN else Infinity (Bool.eqb s (0 <? b))
  | Infinity s, Infinity t => Infinity (Bool.eqb s t)
  end.

(** ** Strings *)

(** [String.prototype.toLowerCase] as far as the ASCII letters go: the
    other bytes are kept as they are, so this is the method itself on
    ASCII strings only.  The handlers that call the method are therefore
    given for an arbitrary lowercase function [lower] as well. *)
Definition lowerChar (c : ascii) : ascii :=
  let n := N_of_ascii c in
  if ((65 <=? n) && (n <=? 90))%N then ascii_of_N (n + 32) else c.

Fixpoint toLowerCase (s : string) : string :=
  match s with
  | EmptyString => EmptyString
  | String c s' => String (lowerChar c) (toLowerCase s')
  end.

Fixpoint startsWith (s p : string) : bool :=
  match p, s with
  | EmptyString, _ => true
  | String c p', String d s' => Ascii.eqb c d && startsWith s' p'
  | String _ _, EmptyString => false
  end.

(** [s.includes(p)]: [p] occurs in [s] at some position. *)
Fixpoint includes (s p : string) : bool :=
  startsWith s p ||
  match s with
  | EmptyString => false
  | String _ s' => includes s' p
  end.

(** The string has ASCII characters only. *)
Fixpoint isAscii (s : string) : bool :=
  match s with
  | EmptyString => true
  | String c s' => (N_of_ascii c <? 128)%N && isAscii s'
  end.

(** *** parseInt *)

(** White space and line terminators of one byte: TAB, LF, VT, FF, CR and
    the space. *)
Definition isWhiteSpace (c : ascii) : bool :=
  let n := N_of_ascii c in
  ((9 <=? n) && (n <=? 13) || (n =? 32))%N.

(** U+00A0, encoded C2 A0. *)
Definition isWhiteSpace2 (c1 c2 : ascii) : bool :=
  ((N_of_ascii c1 =? 194) && (N_of_ascii c2 =? 160))%N.

(** The white space and line terminators of three bytes: U+1680
    (E1 9A 80), U+2000 to U+200A, U+2028, U+2029 and U+202F (E2 80 80 to
    8A, A8, A9, AF), U+205F (E2 81 9F), U+3000 (E3 80 80) and U+FEFF
    (EF BB BF). *)
Definition isWhiteSpace3 (c1 c2 c3 : ascii) : bool :=
  let '(n1, n2, n3) := (N_of_ascii c1, N_of_ascii c2, N_of_ascii c3) in
  ((n1 =? 225) && (n2 =? 154) && (n3 =? 128) ||
   (n1 =? 226) && (n2 =? 128) &&
     ((128 <=? n3) && (n3 <=? 138) || (n3 =? 168) || (n3 =? 169) ||
      (n3 =? 175)) ||
   (n1 =? 226) && (n2 =? 129) && (n3 =? 159) ||
   (n1 =? 227) && (n2 =? 128) && (n3 =? 128) ||
   (n1 =? 239) && (n2 =? 187) && (n3 =? 191))%N.

Fixpoint trimStart (s : string) : string :=
  match s with
  | EmptyString => EmptyString
  | String c1 s1 =>
      if isWhiteSpace c1 then trimStart s1
      else
        match s1 with
        | EmptyString => s
        | String c2 s2 =>
            if isWhiteSpace2 c1 c2 then trimStart s2
            else
              match s2 with
              | EmptyString => s
              | String c3 s3 =>
                  if isWhiteSpace3 c1 c2 c3 then trimStart s3 else s
              end
        end
  end.

Definition digitValue (c : ascii) : option Z :=
  let n := Z.of_N (N_of_ascii c) in
  if (48 <=? n) && (n <=? 57) then Some (n - 48)
  else if (97 <=? n) && (n <=? 122) then Some (n - 87)
  else if (65 <=? n) && (n <=? 90) then Some (n - 55)
  else None.

(** The longest prefix of digits of the radix, read as a numeral; [acc] is
    [None] until a first digit has been seen. *)
Fixpoint parseDigits (radix : Z) (s : string) (acc : option Z) : option Z :=
  match s with
  | EmptyString => acc
  | String c s' =>
      match digitValue c with
      | Some d =>
          if d <? radix
          then parseDigits radix s' (Some (radix * default 0 acc + d))
          else acc
      | None => acc
      end
  end.

(** [parseInt(s)] without a radix: leading white space, a sign, an optional
    0x prefix, then digits; NaN when there is no digit, else the double
    nearest to the numeral read. *)
Definition parseInt (s : string) : number :=
  let s1 := trimStart s in
  let '(sign, s2) :=
    match s1 with
    | String "-" r => (-1, r)
    | String "+" r => (1, r)
    | _ => (1, s1)
    end in
  let '(radix, s3) :=
    match s2 with
    | String "0" (String "x" r) => (16, r)
    | String "0" (String "X" r) => (16, r)
    | _ => (10, s2)
    end in
  match parseDigits radix s3 None with
  | Some n => roundDouble (sign * n)
  | None => NaN
  end.

(** ** Arrays *)

(** The index that [Array.prototype.slice] makes of a bound: NaN counts
    as 0, a negative bound counts from the end, and the result is clamped
    to the array. *)
Definition relativeIndex (len : Z) (n : number) : Z :=
  match n with
  | NaN => Z.min 0 len
  | Num k => if k <? 0 then Z.max (len + k) 0 else Z.min k len
  | Infinity true => len
  | Infinity false => 0
  end.

Definition slice {A} (l : list A) (start stop : number) : list A :=
  let len := Z.of_nat (length l) in
  let k := relativeIndex len start in
  let final := relativeIndex len stop in
  take (Z.to_nat (final - k)) (drop (Z.to_nat k) l).

(** [findIndex]: the position of the first element that satisfies [f]
    ([None] stands for -1). *)
Fixpoint findIndex {A} (f : A → bool) (l : list A) : option nat :=
  match l with
  | [] => None
  | x :: l' => if f x then Some 0%nat else S <$> findIndex f l'
  end.

(** ** Exceptions *)

Inductive result (A : Type) :=
  | Ok (a : A)
  | Throw (e : string).
Arguments Ok {A} a.
Arguments Throw {A} e.

#[global] Instance result_bind : MBind result := λ A B k m,
  match m with
  | Ok a => k a
  | Throw e => Throw e
  end.

(** [v.toLowerCase()]: only a string has the method. *)
Definition toLowerCaseV (lower : string → string) (v : value)
    : result string :=
  match v with
  | VStr s => Ok (lower s)
  | _ => Throw "TypeError"
  end.

(** [l.find(f)] and [l.filter(f)] for a callback that may throw: the
    callback runs on the elements in order and the first exception ends
    the call. *)
Fixpoint findR {A} (f : A → result bool) (l : list A) : result (option A) :=
  match l with
  | [] => Ok None
  | x :: l' => b ← f x; if b : bool then Ok (Some x) else findR f l'
  end.

Fixpoint filterR {A} (f : A → result bool) (l : list A) : result (list A) :=
  match l with
  | [] => Ok []
  | x :: l' =>
      b ← f x; r ← filterR f l'; Ok (if b : bool then x :: r else r)
  end.

(** ** Book data *)

Module Book.
Record t := make { id : Z; title : value; author : value }.
End Book.
Abbreviation book := Book.t.

Definition books : list book :=
  [ Book.make 1 (VStr "1984") (VStr "George Orwell");
    Book.make 2 (VStr "The Hobbit") (VStr "J.R.R. Tolkien") ].

(** ** Requests and responses *)

Inductive endpoint :=
  | GET_books
  | GET_books_search
  | GET_books_id
  | POST_books
  | PUT_books_id
  | DELETE_books_reset
  | DELETE_books_id.

(** A value of [req.query]: the text of a parameter, an array for a
    parameter that is repeated or written [p[]=], an object for one written
    [p[k]=]. *)
#[warnings="-register-all"]
Inductive qvalue :=
  | QStr (s : string)
  | QArr (items : list qvalue)
  | QObj (fields : list (string * qvalue)).

(** ToBoolean of a query value that may be absent. *)
Definition truthy_query (o : option qvalue) : bool :=
  match o with
  | Some (QStr s) => negb (String.eqb s "")
  | Some _ => true
  | None => false
  end.

(** ToString of a query value: an array is its elements joined by commas. *)
Fixpoint toStringQ (v : qvalue) : string :=
  match v with
  | QStr s => s
  | QArr items =>
      (fix join (l : list qvalue) : string :=
         match l with
         | [] => ""
         | [x] => toStringQ x
         | x :: l' => toStringQ x +:+ "," +:+ join l'
         end) items
  | QObj _ => "[object Object]"
  end.

(** [q.toLowerCase()] on a query value. *)
Definition toLowerCaseQ (lower : string → string) (v : qvalue)
    : result string :=
  match v with
  | QStr s => Ok (lower s)
  | _ => Throw "TypeError"
  end.

(** A request to the book route group after routing: the matched route,
    the headers, the [:id] segment of the path, the query string, the
    parsed JSON body (an empty object when there is none), whether
    [express.json()] failed on the body (it is [malformed]), the client
    address the limiter keys on and the clock at arrival (ms). *)
Record request := Request {
  route : endpoint;
  headers : gmap string string;
  params_id : string;
  query : gmap string qvalue;
  body : gmap string value;
  malformed : bool;
  ip : string;
  now : Z
}.

Inductive payload :=
  | NoBody
  | Error (msg : string)
  | OneBook (b : book)
  | Books (l : list book).

Record response := Response { status : Z; json : payload }.

(** [const { f } = req.body]. *)
Definition field (o : gmap string value) (f : string) : value :=
  default VUndefined (o !! f).

(** ** Authentication middleware

    A middleware either answers the request ([Some] response) or calls
    [next()] ([None]). *)

Definition requireAuth (req : request) : option response :=
  let token := headers req !! "authorization" in
  if negb (truthy_str token)
  then Some (Response 401 (Error "Unauthorized. No token provided."))
  else None.

Definition requireAdmin (req : request) : option response :=
  let token := headers req !! "authorization" in
  if bool_decide (token ≠ Some "Bearer admin-token")
  then Some (Response 403 (Error "Forbidden. Admin access required."))
  else None.

(** ** Rate limiting *)

Record options := Options { windowMs : Z; max : Z; message : payload }.

(** What the limiter remembers of a client: the requests counted in its
    current window and the time at which that window ends. *)
Record client := Client { totalHits : Z; resetTime : Z }.

(** Modelled from the spec: [rateLimit] is the express-rate-limit package,
    which index.js configures but does not contain.  It is the fixed-window
    counter of section 4.4: a client's window opens at its first request
    and lasts [windowMs]; a request that arrives when the client has no
    window, or once its window has elapsed, opens a new window with a
    counter of zero; every request is counted; a request whose count
    exceeds [max] is answered at once with the configured message and the
    too-many-requests status (429), the others are passed on. *)
Definition rateLimit (o : options) (req : request)
    (hits : gmap string client) : option response * gmap string client :=
  let key := ip req in
  let current :=
    match hits !! key with
    | Some c => if resetTime c <=? now req
                then Client 0 (now req + windowMs o)
                else c
    | None => Client 0 (now req + windowMs o)
    end in
  let counted := Client (totalHits current + 1) (resetTime current) in
  let hits' := <[key := counted]> hits in
  if max o <? totalHits counted
  then (Some (Response 429 (message o)), hits')
  else (None, hits').

Definition limiter : request → gmap string client →
                     option response * gmap string client :=
  rateLimit (Options (60 * 1000) 15 (Error "Too many requests. Slow down.")).

(** ** Routes *)

(** A handler reads the request and the array and gives the response (or
    the exception it raised) and the array it leaves behind. *)
Definition handler := request → list book → result response * list book.

(** [req.query.p || d], as the string [parseInt] makes of it. *)
Definition query_or (req : request) (p d : string) : string :=
  match query req !! p with
  | Some v => if truthy_query (Some v) then toStringQ v else d
  | None => d
  end.

(** GET all books with pagination *)
Definition getBooks : handler := λ req bks,
  let page := parseInt (query_or req "page" "1") in
  let limit := parseInt (query_or req "limit" "10") in
  let start := num_mul (num_sub page (Num 1)) limit in
  let paginated := slice bks start (num_add start limit) in
  (Ok (Response 200 (Books paginated)), bks).

(** The callback of the search filter: both tests are evaluated, each
    only when its parameter is given. *)
Definition searchMatchesWith (lower : string → string)
    (title author : option qvalue) (b : book) : result bool :=
  matchesTitle ←
    (if truthy_query title
     then t ← toLowerCaseV lower (Book.title b);
          q ← toLowerCaseQ lower (default (QStr "") title);
          Ok (includes t q)
     else Ok true);
  matchesAuthor ←
    (if truthy_query author
     then a ← toLowerCaseV lower (Book.author b);
          q ← toLowerCaseQ lower (default (QStr "") author);
          Ok (includes a q)
     else Ok true);
  Ok (matchesTitle && matchesAuthor).

(** GET books by search, for the lowercase function [lower] *)
Definition searchBooksWith (lower : string → string) : handler := λ req bks,
  let title := query req !! "title" in
  let author := query req !! "author" in
  if negb (truthy_query title) && negb (truthy_query author)
  then (Ok (Response 400
         (Error "Please provide at least a title or author for search")), bks)
  else
    match filterR (searchMatchesWith lower title author) bks with
    | Throw e => (Throw e, bks)
    | Ok filteredBooks =>
        if (length filteredBooks =? 0)%nat
        then (Ok (Response 404 (Error "Books not found for search")), bks)
        else (Ok (Response 200 (Books filteredBooks)), bks)
    end.

Definition searchMatches := searchMatchesWith toLowerCase.
Definition searchBooks : handler := searchBooksWith toLowerCase.

(** [b.id === n] *)
Definition hasId (n : number) (b : book) : bool := strictEq (Num (Book.id b)) n.

(** GET book by ID *)
Definition getBook : handler := λ req bks,
  match find (hasId (parseInt (params_id req))) bks with
  | None => (Ok (Response 404 (Error "Book not found")), bks)
  | Some b => (Ok (Response 200 (OneBook b)), bks)
  end.

(** The callback of the duplicate search: the authors are compared only
    when the titles are equal. *)
Definition sameTitleAuthorWith (lower : string → string)
    (title author : value) (b : book) : result bool :=
  bt ← toLowerCaseV lower (Book.title b);
  t ← toLowerCaseV lower title;
  if String.eqb bt t
  then ba ← toLowerCaseV lower (Book.author b);
       a ← toLowerCaseV lower author;
       Ok (String.eqb ba a)
  else Ok false.

(** POST new book, for the lowercase function [lower] *)
Definition postBookWith (lower : string → string) : handler := λ req bks,
  let id := field (body req) "id" in
  let title := field (body req) "title" in
  let author := field (body req) "author" in
  if truthy id
  then (Ok (Response 400
         (Error "ID must not be provided when creating a book")), bks)
  else if negb (truthy title) || negb (truthy author)
  then (Ok (Response 400 (Error "Both title and author are required.")), bks)
  else
    match findR (sameTitleAuthorWith lower title author) bks with
    | Throw e => (Throw e, bks)
    | Ok (Some duplicate) =>
        (Ok (Response 409
          (Error "A book with the same title and author already exists")), bks)
    | Ok None =>
        let newBook := Book.make (Z.of_nat (length bks) + 1) title author in
        (Ok (Response 201 (OneBook newBook)), (bks ++ [newBook]))
    end.

Definition sameTitleAuthor := sameTitleAuthorWith toLowerCase.
Definition postBook : handler := postBookWith toLowerCase.

(** Assignment to the fields of the object that [l.find(f)] returned: the
    array changes at the position of the first element that satisfies [f]. *)
Fixpoint assignFound {A} (f : A → bool) (x' : A) (l : list A) : list A :=
  match l with
  | [] => []
  | x :: l' => if f x then x' :: l' else x :: assignFound f x' l'
  end.

(** PUT update book (ID must not change) *)
Definition putBook : handler := λ req bks,
  let paramId := parseInt (params_id req) in
  let bodyId := field (body req) "id" in
  let title := field (body req) "title" in
  let author := field (body req) "author" in
  if truthy bodyId && strictNe bodyId paramId
  then (Ok (Response 400 (Error "Updating book ID is not allowed.")), bks)
  else
    match find (hasId paramId) bks with
    | None => (Ok (Response 404 (Error "Book not found")), bks)
    | Some b =>
        let b' := Book.make (Book.id b)
                            (or_else title (Book.title b))
                            (or_else author (Book.author b)) in
        (Ok (Response 200 (OneBook b')), assignFound (hasId paramId) b' bks)
    end.

(** DELETE all books *)
Definition resetBooks : handler := λ req bks,
  (Ok (Response 204 NoBody), []).

(** DELETE book *)
Definition deleteBook : handler := λ req bks,
  match findIndex (hasId (parseInt (params_id req))) bks with
  | None => (Ok (Response 404 (Error "Book not found")), bks)
  | Some index => (Ok (Response 204 NoBody), delete index bks)
  end.

(** ** The application *)

(** The two pieces of state shared by the requests: the limiter's counters
    and the array of books. *)
Record state := State { hits : gmap string client; store : list book }.

Definition initial : state := State ∅ books.

(** A route runs its middleware in order, then its handler; the first
    middleware that answers ends the chain. *)
Fixpoint guarded (guards : list (request → option response)) (h : handler)
    : handler := λ req bks,
  match guards with
  | [] => h req bks
  | g :: guards' =>
      match g req with
      | Some r => (Ok r, bks)
      | None => guarded guards' h req bks
      end
  end.

Definition router : handler := λ req bks,
  match route req with
  | GET_books => getBooks req bks
  | GET_books_search => searchBooks req bks
  | GET_books_id => getBook req bks
  | POST_books => guarded [requireAuth] postBook req bks
  | PUT_books_id => guarded [requireAuth] putBook req bks
  | DELETE_books_reset => guarded [requireAuth; requireAdmin] resetBooks req bks
  | DELETE_books_id => guarded [requireAuth; requireAdmin] deleteBook req bks
  end.

(** Global error handler *)
Definition errorHandler (r : result response) : response :=
  match r with
  | Ok resp => resp
  | Throw _ => Response 500 (Error "Something went wrong on the server.")
  end.

(** One request through the stack.  [express.json()] comes first: when it
    fails on the body the error goes straight to the error handler, past
    the limiter and the routes.  Otherwise the limiter, then the route,
    then the error handler for what the route threw. *)
Definition app (req : request) (st : state) : response * state :=
  if malformed req then (errorHandler (Throw "SyntaxError"), st)
  else
    match limiter req (hits st) with
    | (Some rejected, hits') => (rejected, State hits' (store st))
    | (None, hits') =>
        let '(r, bks') := router req (store st) in
        (errorHandler r, State hits' bks')
    end.

(** The requests of a run, served one after the other. *)
Fixpoint serve (reqs : list request) (st : state) : list response * state :=
  match reqs with
  | [] => ([], st)
  | req :: reqs' =>
      let '(r, st') := app req st in
      let '(rs, st'') := serve reqs' st' in
      (r :: rs, st'')
  end.

(** The states the service can be in: the initial one and those a request
    leads to. *)
Inductive reachable : state → Prop :=
  | reachable_initial : reachable initial
  | reachable_step req st : reachable st → reachable (app req st).2.

(** The request is one of the client [c] that gets as far as the limiter:
    its body, if any, has been parsed. *)
Definition reachesLimiter (c : string) (r : request) : bool :=
  bool_decide (ip r = c) && negb (malformed r).

(** How many requests of a run the limiter counts for the client [c]. *)
Fixpoint countedFor (c : string) (reqs : list request) : nat :=
  match reqs with
  | [] => 0
  | r :: reqs' =>
      ((if reachesLimiter c r then 1 else 0) + countedFor c reqs')%nat
  end.

(** The answer of the limiter to a request over the quota. *)
Definition tooManyRequests : response :=
  Response 429 (Error "Too many requests. Slow down.").

(** The quota test of the limiter on the [j]-th request of a window. *)
Definition verdict (j : Z) : option response :=
  if 15 <? j then Some tooManyRequests else None.

(** The array holds the ids 1..n in order, n its length: the shape in
    which the length plus one is a fresh id. *)
Definition dense (bks : list book) : Prop :=
  Book.id <$> bks = seqZ 1 (Z.of_nat (length bks)).

(** A book as the data model describes it: its title and its author are
    strings. *)
Definition wellTyped (b : book) : Prop :=
  ∃ t a, Book.title b = VStr t ∧ Book.author b = VStr a.

(** The value is a string that equals [s] when case is ignored, that is,
    once both are in lower case. *)
Definition equalsIgnoringCase (lower : string → string)
    (v : value) (s : string) : Prop :=
  ∃ x, v = VStr x ∧ lower x = lower s.

(** The value is a string in which [s] occurs when case is ignored. *)
Definition containsIgnoringCase (lower : string → string)
    (v : value) (s : string) : Prop :=
  ∃ x before after, v = VStr x ∧ lower x = before +:+ lower s +:+ after.

(** A search parameter is given with the text [q]: it is present, a
    string, and not empty. *)
Definition given (o : option qvalue) (q : string) : Prop :=
  o = Some (QStr q) ∧ q ≠ "".

(** A search parameter is a single string when it is present (not an
    array or an object). *)
Definition plain (o : option qvalue) : Prop :=
  ∀ v, o = Some v → ∃ q, v = QStr q.

(** The book meets the search criteria: for each parameter that is given,
    the field of that name contains its text, case ignored. *)
Definition meetsCriteria (lower : string → string)
    (title author : option qvalue) (b : book) : Prop :=
  (∀ q, given title q → containsIgnoringCase lower (Book.title b) q) ∧
  (∀ q, given author q → containsIgnoringCase lower (Book.author b) q).

(** [lower] is [String.prototype.toLowerCase] on ASCII strings. *)
Definition lowersAscii (lower : string → string) : Prop :=
  ∀ s, isAscii s = true → lower s = toLowerCase s.

(** [selects P l found]: [found] is exactly the elements of [l] that
    satisfy [P], as often and in the order in which they stand in [l]. *)
Inductive selects {A} (P : A → Prop) : list A → list A → Prop :=
  | selects_nil : selects P [] []
  | selects_keep x l found :
      P x → selects P l found → selects P (x :: l) (x :: found)
  | selects_skip x l found :
      ¬ P x → selects P l found → selects P (x :: l) found.

(** The bounds that [getBooks] passes to [slice]. *)
Definition bounds (page limit : number) : number * number :=
  let start := num_mul (num_sub page (Num 1)) limit in
  (start, num_add start limit).

(** ** Sample requests *)

Definition bearer (token : string) : gmap string string :=
  {[ "authorization" := "Bearer " +:+ token ]}.

Definition GET (path_id : string) (q : gmap string qvalue) : request :=
  Request (if String.eqb path_id "" then GET_books else GET_books_id)
          ∅ path_id q ∅ false "203.0.113.7" 0.
Definition SEARCH (q : gmap string qvalue) : request :=
  Request GET_books_search ∅ "" q ∅ false "203.0.113.7" 0.
Definition POST (b : gmap string value) : request :=
  Request POST_books (bearer "secret") "" ∅ b false "203.0.113.7" 0.
Definition PUT (path_id : string) (b : gmap string value) : request :=
  Request PUT_books_id (bearer "secret") path_id ∅ b false "203.0.113.7" 0.
Definition DELETE (path_id : string) : request :=
  Request DELETE_books_id (bearer "admin-token") path_id ∅ ∅ false
          "203.0.113.7" 0.

Definition dune : gmap string value :=
  {[ "title" := VStr "Dune"; "author" := VStr "Frank Herbert" ]}.
Definition hobbit : gmap string value :=
  {[ "title" := VStr "The Hobbit"; "author" := VStr "J.R.R. Tolkien" ]}.
(** A list request of the client at address [addr], at time [t]. *)
Definition ping (addr : string) (t : Z) : request :=
  Request GET_books ∅ "" ∅ ∅ false addr t.

(** The same request with a body that is not JSON. *)
Definition garbled (req : request) : request :=
  Request (route req) (headers req) (params_id req) (query req) ∅ true
          (ip req) (now req).

(** Sixteen requests of one client in one window, the second with a body
    that [express.json()] refuses. *)
Definition burst_garbled : list request :=
  ping "203.0.113.7" 0 :: garbled (ping "203.0.113.7" 500) ::
  (ping "203.0.113.7" <$> ((λ i, 1000 * i) <$> seqZ 1 14)).

(** The state after book 1 has been given the number 1984 as its title. *)
Definition numericTitle : state :=
  (app (PUT "1" {[ "title" := VNum 1984 ]}) initial).2.

(** Sixteen requests of one client, a second apart, with a request of
    another client in between. *)
Definition burst : list request :=
  ping "203.0.113.7" 0 :: ping "198.51.100.2" 500 ::
  (ping "203.0.113.7" <$> ((λ i, 1000 * i) <$> seqZ 1 15)).

Definition emma : gmap string value :=
  {[ "title" := VStr "Emma"; "author" := VStr "Jane Austen" ]}.
Definition hobbit_again : gmap string value :=
  {[ "title" := VStr "the hobbit"; "author" := VStr "j.r.r. TOLKIEN" ]}.

(** * Properties *)

(** ** Runtime functions *)

Lemma parseInt_examples :
  parseInt "1" = Num 1 ∧ parseInt "10" = Num 10 ∧ parseInt " 42abc" = Num 42 ∧
  parseInt "-7" = Num (-7) ∧ parseInt "0x1F" = Num 31 ∧ parseInt "abc" = NaN ∧
  parseInt "" = NaN ∧ parseInt "0x" = NaN ∧
  parseInt "9007199254740993" = Num 9007199254740992 ∧
  parseInt (String (ascii_of_N 194) (String (ascii_of_N 160) "2")) = Num 2.
Proof. repeat split; vm_compute; reflexivity. Qed.

Lemma toLowerCase_examples :
  toLowerCase "The Hobbit" = "the hobbit" ∧ toLowerCase "J.R.R. Tolkien" = "j.r.r. tolkien".
Proof. split; reflexivity. Qed.

Lemma slice_examples :
  slice [1; 2; 3; 4] (Num 0) (Num 10) = [1; 2; 3; 4] ∧
  slice [1; 2; 3; 4] (Num 1) (Num 3) = [2; 3] ∧
  slice [1; 2; 3; 4] (Num (-2)) (Num 4) = [3; 4] ∧
  slice [1; 2; 3; 4] NaN NaN = [] ∧
  slice [1; 2; 3; 4] (Num 3) (Num 1) = [] ∧
  slice [1; 2; 3; 4] (Num 2) (Infinity true) = [3; 4] ∧
  slice [1; 2; 3; 4] (Infinity false) (Num 1) = [1].
Proof. repeat split; reflexivity. Qed.

(** Below 2^53 every integer is a double. *)
Lemma roundDouble_safe z : Z.abs z < 2 ^ 53 → roundDouble z = Num z.
Proof.
  intros Hz. unfold roundDouble.
  destruct (Z.ltb_spec (Z.abs z) (2 ^ 53)); [done | lia].
Qed.

(** From 2^53 on the double is at least 2^53, or the infinity. *)
Lemma roundDouble_large z :
  2 ^ 53 ≤ z →
  roundDouble z = Infinity true ∨
  ∃ z', roundDouble z = Num z' ∧ 2 ^ 53 ≤ z'.
Proof.
  intros Hz. unfold roundDouble. rewrite Z.abs_eq by lia.
  destruct (Z.ltb_spec z (2 ^ 53)); [lia|].
  assert (0 < z) as Hpos by lia.
  replace (0 <? z) with true by (symmetry; by apply Z.ltb_lt).
  set (e := Z.log2 z - 52).
  assert (53 ≤ Z.log2 z) as Hlog.
  { change 53 with (Z.log2 (2 ^ 53)). by apply Z.log2_le_mono. }
  assert (1 ≤ e) as He by (unfold e; lia).
  assert (0 < 2 ^ e) as Hpow by (apply Z.pow_pos_nonneg; lia).
  assert (2 ^ 52 ≤ z / 2 ^ e) as Hq.
  { apply Z.div_le_lower_bound; [done|].
    rewrite <- Z.pow_add_r by lia. replace (e + 52) with (Z.log2 z) by (unfold e; lia).
    by apply Z.log2_spec. }
  assert (2 ≤ 2 ^ e) as H2.
  { change 2 with (2 ^ 1) at 1. apply Z.pow_le_mono_r; lia. }
  rewrite Z.sgn_pos by done.
  destruct (_ || _); (destruct (2 ^ 1024 <=? _); [by left|]); right;
    (eexists; split; [done|]); change (2 ^ 53) with (2 ^ 52 * 2); nia.
Qed.

Lemma roundDouble_at_least m n :
  0 ≤ m ≤ 2 ^ 53 → m ≤ n →
  roundDouble n = Infinity true ∨ ∃ n', roundDouble n = Num n' ∧ m ≤ n'.
Proof.
  intros Hm Hn. destruct (Z.lt_ge_cases n (2 ^ 53)) as [Hsafe|Hlarge].
  - right. exists n. split; [|done]. apply roundDouble_safe. lia.
  - destruct (roundDouble_large n Hlarge) as [?|(n' & ? & ?)]; [by left|].
    right. exists n'. split; [done | lia].
Qed.

Lemma slice_whole {A} (l : list A) (stop : number) :
  stop = Infinity true ∨ (∃ n, stop = Num n ∧ Z.of_nat (length l) ≤ n) →
  slice l (Num 0) stop = l.
Proof.
  intros Hstop. unfold slice.
  assert (relativeIndex (Z.of_nat (length l)) stop = Z.of_nat (length l))
    as ->.
  { destruct Hstop as [-> | (n & -> & Hn)]; [done|]. unfold relativeIndex.
    destruct (Z.ltb_spec n 0); lia. }
  assert (relativeIndex (Z.of_nat (length l)) (Num 0) = 0) as ->.
  { unfold relativeIndex. replace (0 <? 0) with false by done. lia. }
  change (Z.to_nat 0) with 0%nat. rewrite drop_0.
  rewrite Z.sub_0_r, Nat2Z.id. apply firstn_all.
Qed.

Lemma slice_from_start {A} (l : list A) (n : Z) :
  Z.of_nat (length l) ≤ n → slice l (Num 0) (Num n) = l.
Proof. intros Hn. apply slice_whole. right. eauto. Qed.

(** ** Where a status comes from *)

(** Unfolds a handler and splits on every test it makes. *)
Ltac split_handler :=
  intros; cbn [fst snd errorHandler status json] in *;
  repeat (case_match; simplify_eq; cbn [fst snd errorHandler status json] in *);
  simplify_eq; try done.

Lemma guarded_status guards h req bks (code : Z) :
  Forall (λ g, ∀ r, g req = Some r → status r ≠ code) guards →
  status (errorHandler (h req bks).1) ≠ code →
  status (errorHandler (guarded guards h req bks).1) ≠ code.
Proof.
  induction 1 as [|g guards Hg _ IH]; intros Hh; simpl; [done|].
  destruct (g req) as [r|] eqn:Hr; simpl; [by apply Hg | by apply IH].
Qed.

Lemma requireAuth_status req r : requireAuth req = Some r → status r = 401.
Proof. unfold requireAuth. split_handler. Qed.

Lemma requireAdmin_status req r : requireAdmin req = Some r → status r = 403.
Proof. unfold requireAdmin. split_handler. Qed.

Lemma limiter_status req h r : (limiter req h).1 = Some r → status r = 429.
Proof. unfold limiter, rateLimit. split_handler. Qed.

(** Only a successful create answers 201: the book it returns carries the
    length of the array plus one and is appended. *)
Lemma router_201 req bks :
  status (errorHandler (router req bks).1) = 201 →
  ∃ t a,
    let b := Book.make (Z.of_nat (length bks) + 1) t a in
    router req bks = (Ok (Response 201 (OneBook b)), (bks ++ [b])).
Proof.
  unfold router. destruct (route req); simpl;
    unfold requireAuth, requireAdmin, getBooks, searchBooks, searchBooksWith, getBook,
      postBook, postBookWith, putBook, resetBooks, deleteBook;
    split_handler; intros; try lia.
  eexists _, _. reflexivity.
Qed.

Lemma app_201 req st :
  status (app req st).1 = 201 →
  ∃ t a,
    let b := Book.make (Z.of_nat (length (store st)) + 1) t a in
    (app req st).1 = Response 201 (OneBook b) ∧
    store (app req st).2 = (store st ++ [b]).
Proof.
  unfold app. destruct (malformed req); [simpl; lia|].
  destruct (limiter req (hits st)) as [[rej|] h'] eqn:Hlim.
  - simpl. intros H. apply (f_equal fst) in Hlim.
    apply limiter_status in Hlim. simpl in Hlim. lia.
  - destruct (router req (store st)) as [r bks'] eqn:Hr. simpl. intros H.
    destruct (router_201 req (store st)) as (t & a & Hb).
    { by rewrite Hr. }
    rewrite Hr in Hb. simpl in Hb. simplify_eq. eexists _, _. done.
Qed.

(** ** The initial array *)

(** C10. When the process starts the array holds exactly the two seeded
    books, in order.  A first list request (its body, if any, parses)
    whose page is 1 and whose limit is a finite number of at least 2 (the
    defaults are 1 and 10) is answered with both, and a create that
    succeeds while the array is still the seeded one is given id 3 and
    appended. *)
Theorem initial_books :
  store initial =
    [ Book.make 1 (VStr "1984") (VStr "George Orwell");
      Book.make 2 (VStr "The Hobbit") (VStr "J.R.R. Tolkien") ] ∧
  (∀ req n,
     route req = GET_books → malformed req = false →
     parseInt (query_or req "page" "1") = Num 1 →
     parseInt (query_or req "limit" "10") = Num n → 2 ≤ n →
     (app req initial).1 = Response 200 (Books books) ∧
     store (app req initial).2 = books) ∧
  (∀ req st,
     store st = books →
     status (app req st).1 = 201 →
     ∃ t a, (app req st).1 = Response 201 (OneBook (Book.make 3 t a)) ∧
            store (app req st).2 = (books ++ [Book.make 3 t a])).
Proof.
  split; [reflexivity|]. split.
  - intros req n Hroute Hparsed Hpage Hlimit Hn.
    unfold app. rewrite Hparsed. unfold limiter, rateLimit. simpl hits.
    rewrite lookup_empty. simpl.
    unfold router. rewrite Hroute. unfold getBooks. rewrite Hpage, Hlimit.
    cbn [num_sub num_neg num_mul num_add fst snd store].
    change (roundDouble (1 + - (1))) with (Num 0). cbn [num_mul].
    rewrite Z.mul_0_l. change (roundDouble 0) with (Num 0). cbn [num_add].
    rewrite Z.add_0_l, slice_whole; [done|].
    destruct (roundDouble_at_least 2 n) as [->|(n' & -> & ?)];
      [lia | done | by left | right; eauto].
  - intros req st Hst H201.
    destruct (app_201 req st H201) as (t & a & Hr & Hs).
    rewrite Hst in Hr, Hs. simpl in Hr, Hs. eauto.
Qed.

Lemma initial_books_witness :
  (app (GET "" ∅) initial).1 = Response 200 (Books books) ∧
  ∃ t a, (app (POST dune) initial).1 = Response 201 (OneBook (Book.make 3 t a)) ∧
         store (app (POST dune) initial).2 = (books ++ [Book.make 3 t a]).
Proof.
  destruct initial_books as (_ & Hlist & Hcreate). split.
  - apply (Hlist (GET "" ∅) 10);
      [reflexivity | reflexivity | reflexivity | reflexivity | lia].
  - apply (Hcreate (POST dune) initial); reflexivity.
Defined.

(** ** Ids *)

Lemma reachable_serve reqs st : reachable st → reachable (serve reqs st).2.
Proof.
  revert st. induction reqs as [|req reqs IH]; intros st Hst; simpl; [done|].
  pose proof (reachable_step req st Hst) as Hstep.
  destruct (app req st) as [r st']. specialize (IH st' Hstep).
  destruct (serve reqs st') as [rs st'']. done.
Qed.

Lemma dense_NoDup bks : dense bks → NoDup (Book.id <$> bks).
Proof. intros ->. apply NoDup_seqZ. Qed.

Lemma dense_append bks t a :
  dense bks → dense (bks ++ [Book.make (Z.of_nat (length bks) + 1) t a]).
Proof.
  unfold dense. intros H. rewrite fmap_app, H, length_app. simpl.
  rewrite Nat2Z.inj_add. simpl. rewrite seqZ_app by lia. f_equal.
  change (Z.of_nat 1) with 1. rewrite seqZ_cons by lia. simpl.
  rewrite seqZ_nil by lia. f_equal. lia.
Qed.

Lemma dense_fresh bks b :
  dense bks → b ∈ bks → Book.id b < Z.of_nat (length bks) + 1.
Proof.
  intros Hd Hb. apply (list_elem_of_fmap_2 Book.id) in Hb.
  rewrite Hd in Hb. apply elem_of_seqZ in Hb. lia.
Qed.

Lemma assignFound_ids f (b b' : book) bks :
  find f bks = Some b → Book.id b' = Book.id b →
  Book.id <$> assignFound f b' bks = Book.id <$> bks ∧
  length (assignFound f b' bks) = length bks.
Proof.
  intros Hfind Hid.
  induction bks as [|x bks IH]; cbn [assignFound find] in *; [done|].
  destruct (f x); simplify_eq.
  - rewrite !fmap_cons, Hid. done.
  - destruct (IH Hfind) as [IH1 IH2].
    rewrite !fmap_cons, IH1. cbn [length]. by rewrite IH2.
Qed.

(** Every route but the deletion of one book keeps the array dense, and in
    a dense array a create gives an id above all the others. *)
Lemma router_dense req bks :
  route req ≠ DELETE_books_id → dense bks → dense (router req bks).2.
Proof.
  intros Hroute Hd. unfold router. destruct (route req); try done; simpl;
    unfold requireAuth, requireAdmin, getBooks, searchBooks, searchBooksWith, getBook,
      postBook, postBookWith, putBook, resetBooks;
    repeat (case_match; simplify_eq; simpl); try done.
  - by apply dense_append.
  - match goal with H : find _ _ = Some ?b |- dense (assignFound _ ?b' _) =>
      destruct (assignFound_ids _ b b' _ H eq_refl) as [Hids Hlen] end.
    unfold dense. by rewrite Hids, Hlen.
Qed.

Lemma dense_create_above req bks b :
  dense bks →
  (router req bks).1 = Ok (Response 201 (OneBook b)) →
  ∀ old, old ∈ bks → Book.id old < Book.id b.
Proof.
  intros Hd Hr old Hold.
  destruct (router_201 req bks) as (t & a & Hb); [by rewrite Hr|].
  simpl in Hb. rewrite Hb in Hr. simpl in Hr. simplify_eq. simpl.
  by apply dense_fresh.
Qed.

(** C1 (violated).  Deleting the first seeded book and creating a book
    leaves two books with id 2 in the array: the new id is the length of the
    array plus one, and the array has shrunk below the largest id in it. *)
Theorem duplicate_id_after_delete :
  let st := (serve [DELETE "1"; POST dune] initial).2 in
  reachable st ∧
  store st = [ Book.make 2 (VStr "The Hobbit") (VStr "J.R.R. Tolkien");
               Book.make 2 (VStr "Dune") (VStr "Frank Herbert") ] ∧
  ¬ NoDup (Book.id <$> store st).
Proof.
  split; [apply reachable_serve, reachable_initial|].
  split; [vm_compute; reflexivity|].
  vm_compute. intros H. apply NoDup_cons_1_1 in H. apply H. left.
Qed.

(** C2 (violated).  In the state reached by deleting the first seeded book,
    a valid create is answered 201 with id 2 while the book that was given
    id 2 before is still in the array: the new id is not greater. *)
Theorem create_reuses_id :
  let st := (app (DELETE "1") initial).2 in
  let old := Book.make 2 (VStr "The Hobbit") (VStr "J.R.R. Tolkien") in
  reachable st ∧ old ∈ store st ∧
  (app (POST dune) st).1 =
    Response 201 (OneBook (Book.make 2 (VStr "Dune") (VStr "Frank Herbert"))) ∧
  ¬ (Book.id old < 2).
Proof.
  split; [apply reachable_step, reachable_initial|].
  split; [vm_compute; left|].
  split; [vm_compute; reflexivity|]. simpl. lia.
Qed.

(** ** Ids in the body *)

(** A create whose body has a truthy [id] is refused. *)
Lemma postBook_truthy_id req bks :
  truthy (field (body req) "id") = true →
  postBook req bks =
    (Ok (Response 400 (Error "ID must not be provided when creating a book")),
     bks).
Proof. unfold postBook, postBookWith. by intros ->. Qed.

(** C3 (violated).  A create whose body carries [id: 0] next to a title and
    an author passes the test on the id: the book is created and appended. *)
Theorem create_with_id_zero :
  let req := POST (<["id" := VNum 0]> dune) in
  body req !! "id" = Some (VNum 0) ∧
  postBook req books =
    (Ok (Response 201
          (OneBook (Book.make 3 (VStr "Dune") (VStr "Frank Herbert")))),
     (books ++ [Book.make 3 (VStr "Dune") (VStr "Frank Herbert")])).
Proof. split; vm_compute; reflexivity. Qed.

(** An update whose body has a truthy [id] other than the path id is
    refused. *)
Lemma putBook_other_id req bks :
  truthy (field (body req) "id") = true →
  strictNe (field (body req) "id") (parseInt (params_id req)) = true →
  putBook req bks =
    (Ok (Response 400 (Error "Updating book ID is not allowed.")), bks).
Proof. unfold putBook. by intros -> ->. Qed.

(** C4 (violated).  An update of book 1 whose body carries [id: 0], which
    differs from the path id, passes the test on the id: the answer is 200
    and the title of the book is replaced. *)
Theorem update_with_id_zero :
  let req := PUT "1" {[ "id" := VNum 0; "title" := VStr "Animal Farm" ]} in
  body req !! "id" = Some (VNum 0) ∧
  parseInt (params_id req) = Num 1 ∧
  putBook req books =
    (Ok (Response 200
          (OneBook (Book.make 1 (VStr "Animal Farm") (VStr "George Orwell")))),
     [ Book.make 1 (VStr "Animal Farm") (VStr "George Orwell");
       Book.make 2 (VStr "The Hobbit") (VStr "J.R.R. Tolkien") ]).
Proof. repeat split; vm_compute; reflexivity. Qed.

(** ** Lookups by id *)

Lemma hasId_false n b : Num (Book.id b) ≠ n → hasId n b = false.
Proof.
  unfold hasId, strictEq. destruct n as [|z|pos]; [done| |done]. intros Hne.
  destruct (Z.eqb_spec (Book.id b) z) as [Heq|]; [|done].
  by rewrite Heq in Hne.
Qed.

Lemma hasId_true n b : hasId n b = true → n = Num (Book.id b).
Proof.
  unfold hasId, strictEq. destruct n as [|z|pos]; [done| |done].
  intros Heq%Z.eqb_eq. by rewrite Heq.
Qed.

Lemma find_hasId_None n bks :
  Forall (λ b, Num (Book.id b) ≠ n) bks → find (hasId n) bks = None.
Proof.
  induction 1 as [|b bks Hb _ IH]; simpl; [done|].
  by rewrite (hasId_false _ _ Hb).
Qed.

Lemma findIndex_hasId_None n bks :
  Forall (λ b, Num (Book.id b) ≠ n) bks → findIndex (hasId n) bks = None.
Proof.
  induction 1 as [|b bks Hb _ IH]; simpl; [done|].
  by rewrite (hasId_false _ _ Hb), IH.
Qed.

(** C7. When no book of the array has the id that the path names (the
    number [parseInt] reads from it, NaN included), reading, updating and
    deleting by that id are answered 404 and leave the array as it is; the
    update and the deletion are taken past their authentication guards, the
    update also past the test on the id of its body. *)
Theorem unknown_id_404 req bks :
  Forall (λ b, Num (Book.id b) ≠ parseInt (params_id req)) bks →
  (route req = GET_books_id →
   router req bks = (Ok (Response 404 (Error "Book not found")), bks)) ∧
  (route req = PUT_books_id →
   requireAuth req = None →
   truthy (field (body req) "id") &&
     strictNe (field (body req) "id") (parseInt (params_id req)) = false →
   router req bks = (Ok (Response 404 (Error "Book not found")), bks)) ∧
  (route req = DELETE_books_id →
   requireAuth req = None → requireAdmin req = None →
   router req bks = (Ok (Response 404 (Error "Book not found")), bks)).
Proof.
  intros Hnone. unfold router. repeat split.
  - intros ->. unfold getBook. by rewrite find_hasId_None.
  - intros -> Hauth Hid. simpl. rewrite Hauth. unfold putBook.
    rewrite Hid. by rewrite find_hasId_None.
  - intros -> Hauth Hadmin. simpl. rewrite Hauth, Hadmin. unfold deleteBook.
    by rewrite findIndex_hasId_None.
Qed.

Lemma unknown_id_404_witness :
  router (GET "7" ∅) books =
    (Ok (Response 404 (Error "Book not found")), books) ∧
  router (PUT "7" dune) books =
    (Ok (Response 404 (Error "Book not found")), books) ∧
  router (DELETE "abc") books =
    (Ok (Response 404 (Error "Book not found")), books).
Proof.
  split; [|split].
  - refine (proj1 (unknown_id_404 (GET "7" ∅) books _) _); [|reflexivity].
    repeat constructor; vm_compute; discriminate.
  - refine (proj1 (proj2 (unknown_id_404 (PUT "7" dune) books _)) _ _ _);
      [|reflexivity..].
    repeat constructor; vm_compute; discriminate.
  - refine (proj2 (proj2 (unknown_id_404 (DELETE "abc") books _)) _ _ _);
      [|reflexivity..].
    repeat constructor; vm_compute; discriminate.
Defined.

(** ** Updates *)

Lemma find_first n pre b post :
  Forall (λ x, Num (Book.id x) ≠ n) pre → Num (Book.id b) = n →
  find (hasId n) (pre ++ b :: post) = Some b.
Proof.
  intros Hpre Hb. induction Hpre as [|x pre Hx _ IH]; simpl.
  - subst n. unfold hasId, strictEq. by rewrite Z.eqb_refl.
  - by rewrite (hasId_false _ _ Hx).
Qed.

Lemma assignFound_first n pre b b' post :
  Forall (λ x, Num (Book.id x) ≠ n) pre → Num (Book.id b) = n →
  assignFound (hasId n) b' (pre ++ b :: post) = (pre ++ b' :: post).
Proof.
  intros Hpre Hb. induction Hpre as [|x pre Hx _ IH]; simpl.
  - subst n. unfold hasId, strictEq. by rewrite Z.eqb_refl.
  - by rewrite (hasId_false _ _ Hx), IH.
Qed.

(** C6. An update that targets a book of the array (the first one that
    carries the path id) and is past the test on the id of its body is
    answered 200 with the resulting book, which takes the place of the old
    one.  The id is kept; the title is kept when the title of the body is
    absent or falsy (the empty string included) and is replaced by it
    otherwise; the same holds for the author. *)
Theorem update_overwrites_truthy_only req pre b post :
  let paramId := parseInt (params_id req) in
  let bodyId := field (body req) "id" in
  let title := field (body req) "title" in
  let author := field (body req) "author" in
  Forall (λ x, Num (Book.id x) ≠ paramId) pre →
  Num (Book.id b) = paramId →
  truthy bodyId && strictNe bodyId paramId = false →
  ∃ b',
    putBook req (pre ++ b :: post) =
      (Ok (Response 200 (OneBook b')), (pre ++ b' :: post)) ∧
    Book.id b' = Book.id b ∧
    (truthy title = false → Book.title b' = Book.title b) ∧
    (truthy title = true → Book.title b' = title) ∧
    (truthy author = false → Book.author b' = Book.author b) ∧
    (truthy author = true → Book.author b' = author).
Proof.
  intros paramId bodyId title author Hpre Hb Hid.
  eexists. split.
  - unfold putBook. fold paramId bodyId title author. rewrite Hid.
    rewrite (find_first _ _ _ _ Hpre Hb).
    rewrite (assignFound_first _ _ _ _ _ Hpre Hb). reflexivity.
  - simpl. unfold or_else. repeat split; intros ->; reflexivity.
Qed.

Lemma update_overwrites_truthy_only_witness :
  ∃ b',
    putBook (PUT "2" {[ "title" := VStr ""; "author" := VStr "Tolkien" ]})
            books =
      (Ok (Response 200 (OneBook b')),
       [Book.make 1 (VStr "1984") (VStr "George Orwell"); b']) ∧
    Book.id b' = 2 ∧
    Book.title b' = VStr "The Hobbit" ∧
    Book.author b' = VStr "Tolkien".
Proof.
  destruct (update_overwrites_truthy_only
              (PUT "2" {[ "title" := VStr ""; "author" := VStr "Tolkien" ]})
              [Book.make 1 (VStr "1984") (VStr "George Orwell")]
              (Book.make 2 (VStr "The Hobbit") (VStr "J.R.R. Tolkien")) [])
    as (b' & Hput & Hid & Htitle & _ & _ & Hauthor).
  - repeat constructor. vm_compute. discriminate.
  - reflexivity.
  - reflexivity.
  - exists b'. repeat split.
    + exact Hput.
    + exact Hid.
    + apply Htitle. reflexivity.
    + apply Hauthor. reflexivity.
Defined.

(** ** Duplicates *)

Lemma truthy_VStr s : truthy (VStr s) = true ↔ s ≠ "".
Proof.
  simpl. destruct (String.eqb_spec s ""); split; intros; done.
Qed.

Lemma sameTitleAuthor_ignores_case lower t a t' a' b :
  lower t' = lower t → lower a' = lower a →
  sameTitleAuthorWith lower (VStr t') (VStr a') b =
  sameTitleAuthorWith lower (VStr t) (VStr a) b.
Proof. unfold sameTitleAuthorWith. simpl. by intros -> ->. Qed.

Lemma sameTitleAuthor_equal lower t a b :
  equalsIgnoringCase lower (Book.title b) t →
  equalsIgnoringCase lower (Book.author b) a →
  sameTitleAuthorWith lower (VStr t) (VStr a) b = Ok true.
Proof.
  intros (bt & Hbt & Ht) (ba & Hba & Ha). unfold sameTitleAuthorWith.
  rewrite Hbt, Hba. simpl. rewrite Ht, Ha.
  unfold mbind, result_bind. by rewrite !String.eqb_refl.
Qed.

Lemma sameTitleAuthor_wellTyped lower t a b :
  wellTyped b → ∃ r, sameTitleAuthorWith lower (VStr t) (VStr a) b = Ok r.
Proof.
  intros (bt & ba & Hbt & Hba). unfold sameTitleAuthorWith.
  rewrite Hbt, Hba. simpl. unfold mbind, result_bind.
  destruct (String.eqb _ _); eauto.
Qed.

Lemma findR_app_None {A} (f : A → result bool) l l' :
  findR f l = Ok None → findR f (l ++ l') = findR f l'.
Proof.
  induction l as [|x l IH]; simpl; [done|].
  unfold mbind, result_bind. destruct (f x) as [[]|]; done.
Qed.

Lemma findR_ext {A} (f g : A → result bool) l :
  (∀ x, f x = g x) → findR f l = findR g l.
Proof.
  intros Hfg. induction l as [|x l IH]; simpl; [done|].
  rewrite Hfg. unfold mbind, result_bind. destruct (g x) as [[]|]; done.
Qed.

Lemma findR_found lower t a b bks :
  Forall wellTyped bks → b ∈ bks →
  sameTitleAuthorWith lower (VStr t) (VStr a) b = Ok true →
  ∃ duplicate,
    findR (sameTitleAuthorWith lower (VStr t) (VStr a)) bks =
      Ok (Some duplicate).
Proof.
  intros Htyped Hb Hsame. induction Htyped as [|x bks Hx _ IH].
  - by apply elem_of_nil in Hb.
  - simpl. destruct (sameTitleAuthor_wellTyped lower t a x Hx) as [r Hr].
    rewrite Hr. unfold mbind, result_bind. destruct r; [eauto|].
    apply IH. apply elem_of_cons in Hb as [->|Hb]; [congruence|done].
Qed.

(** C5 (as stated: violated).  The array can hold a title that is not a
    string: after the update of book 1 with the title 1984, a number, the
    create of 'The Hobbit' by 'J.R.R. Tolkien', which is in the array, is
    not answered 409: the duplicate search throws on book 1 and the error
    handler answers 500. *)
Lemma duplicate_create_500 :
  reachable numericTitle ∧
  Book.make 2 (VStr "The Hobbit") (VStr "J.R.R. Tolkien") ∈
    store numericTitle ∧
  (app (POST hobbit) numericTitle).1 =
    Response 500 (Error "Something went wrong on the server.") ∧
  store (app (POST hobbit) numericTitle).2 = store numericTitle.
Proof.
  split; [apply reachable_step, reachable_initial|].
  split; [vm_compute; right; left|].
  split; vm_compute; reflexivity.
Qed.

(** C5 (amended).  Whatever function [String.prototype.toLowerCase] is: a
    create that reaches the duplicate search (no truthy id in the body, a
    non-empty string as title and as author) and whose title and author
    equal, case ignored, those of a book of the array is answered 409 and
    leaves the array as it is, provided the titles and authors of the
    array are strings.  In particular, after a create that succeeded, a
    create with the same title and author, whatever the case of their
    letters, is answered 409; this needs nothing of the array. *)
Theorem duplicate_create_409 lower req t a :
  field (body req) "title" = VStr t →
  field (body req) "author" = VStr a →
  truthy (field (body req) "id") = false →
  t ≠ "" → a ≠ "" →
  (∀ bks b,
     Forall wellTyped bks → b ∈ bks →
     equalsIgnoringCase lower (Book.title b) t →
     equalsIgnoringCase lower (Book.author b) a →
     postBookWith lower req bks =
       (Ok (Response 409
             (Error "A book with the same title and author already exists")),
        bks)) ∧
  (∀ first bks created bks',
     equalsIgnoringCase lower (field (body first) "title") t →
     equalsIgnoringCase lower (field (body first) "author") a →
     postBookWith lower first bks =
       (Ok (Response 201 (OneBook created)), bks') →
     postBookWith lower req bks' =
       (Ok (Response 409
             (Error "A book with the same title and author already exists")),
        bks')).
Proof.
  intros Htitle Hauthor Hid Ht Ha.
  apply truthy_VStr in Ht, Ha.
  assert (∀ l, postBookWith lower req l =
            match findR (sameTitleAuthorWith lower (VStr t) (VStr a)) l with
            | Throw e => (Throw e, l)
            | Ok (Some _) =>
                (Ok (Response 409
                  (Error "A book with the same title and author already exists")),
                 l)
            | Ok None =>
                let newBook := Book.make (Z.of_nat (length l) + 1)
                                 (VStr t) (VStr a) in
                (Ok (Response 201 (OneBook newBook)), l ++ [newBook])
            end) as Hpost.
  { intros l. unfold postBookWith. by rewrite Hid, Htitle, Hauthor, Ht, Ha. }
  split.
  - intros bks b Htyped Hb Hbt Hba. rewrite Hpost.
    destruct (findR_found lower t a b bks Htyped Hb) as [d ->]; [|done].
    by apply sameTitleAuthor_equal.
  - intros first bks created bks' (t1 & Ht1 & Hlt) (a1 & Ha1 & Hla) Hfirst.
    unfold postBookWith in Hfirst. rewrite Ht1, Ha1 in Hfirst.
    destruct (truthy (field (body first) "id")); [done|].
    destruct (negb (truthy (VStr t1)) || negb (truthy (VStr a1))); [done|].
    destruct (findR _ bks) as [[dup|]|e] eqn:Hfind; [done| |done].
    simplify_eq. rewrite Hpost, findR_app_None.
    + simpl. rewrite sameTitleAuthor_equal; [done| |]; simpl.
      * by exists t1.
      * by exists a1.
    + rewrite <- Hfind. apply findR_ext. intros x.
      by apply sameTitleAuthor_ignores_case.
Qed.

Lemma duplicate_create_409_witness :
  let created := Book.make 1 (VStr "The Hobbit") (VStr "J.R.R. Tolkien") in
  postBook (POST hobbit_again) books =
    (Ok (Response 409
          (Error "A book with the same title and author already exists")),
     books) ∧
  postBook (POST hobbit_again) [created] =
    (Ok (Response 409
          (Error "A book with the same title and author already exists")),
     [created]).
Proof.
  intros created.
  destruct (duplicate_create_409 toLowerCase (POST hobbit_again)
              "the hobbit" "j.r.r. TOLKIEN")
    as [Hdup Htwice];
    [reflexivity | reflexivity | reflexivity | discriminate | discriminate |].
  split.
  - apply (Hdup books (Book.make 2 (VStr "The Hobbit") (VStr "J.R.R. Tolkien"))).
    + repeat constructor; eexists _, _; split; reflexivity.
    + right. left.
    + eexists. split; reflexivity.
    + eexists. split; reflexivity.
  - apply (Htwice (POST hobbit) [] created).
    + eexists. split; reflexivity.
    + eexists. split; reflexivity.
    + reflexivity.
Defined.

(** ** Search *)

Lemma startsWith_spec s p :
  startsWith s p = true ↔ ∃ after, s = p +:+ after.
Proof.
  revert s. induction p as [|c p IH]; intros s; simpl.
  - split; [intros _; by exists s | intros _; by destruct s].
  - destruct s as [|d s]; simpl.
    + split; [done | intros [after Heq]; simpl in Heq; done].
    + rewrite andb_true_iff, IH. split.
      * intros [Hcd%Ascii.eqb_eq [after ->]]. subst d. by exists after.
      * intros [after Heq]. simpl in Heq. injection Heq as -> ->.
        split; [apply Ascii.eqb_refl | eauto].
Qed.

Lemma includes_nil p : includes "" p = startsWith "" p.
Proof. cbn [includes]. apply orb_false_r. Qed.

Lemma includes_cons d s p :
  includes (String d s) p = startsWith (String d s) p || includes s p.
Proof. reflexivity. Qed.

Lemma includes_spec s p :
  includes s p = true ↔ ∃ before after, s = before +:+ p +:+ after.
Proof.
  induction s as [|d s IH].
  - rewrite includes_nil, startsWith_spec. split.
    + intros [after Heq]. by exists "", after.
    + intros (before & after & Heq).
      destruct before; [by exists after | simpl in Heq; done].
  - rewrite includes_cons, orb_true_iff, IH, startsWith_spec. split.
    + intros [[after Heq] | (before & after & Heq)].
      * by exists "", after.
      * exists (String d before), after. simpl. by rewrite Heq.
    + intros (before & after & Heq). destruct before as [|c before].
      * left. by exists after.
      * right. simpl in Heq. injection Heq as -> ->. by exists before, after.
Qed.

Lemma selects_elem_of {A} (P : A → Prop) l found x :
  selects P l found → x ∈ found ↔ x ∈ l ∧ P x.
Proof.
  induction 1 as [|y l found Hy _ IH|y l found Hy _ IH].
  - split; [by intros ?%elem_of_nil | by intros [?%elem_of_nil _]].
  - rewrite !elem_of_cons, IH. split.
    + intros [->|[? ?]]; (split; [|done]); [by left | by right].
    + intros [[->|?] ?]; [by left | by right].
  - rewrite elem_of_cons, IH. split.
    + intros [? ?]. split; [by right | done].
    + intros [[->|?] ?]; done.
Qed.

Lemma selects_unique {A} (P : A → Prop) l found found' :
  selects P l found → selects P l found' → found = found'.
Proof.
  intros H. revert found'.
  induction H as [|y l found Hy _ IH|y l found Hy _ IH]; intros found' H';
    inversion H'; subst; try done.
  - f_equal. by apply IH.
  - by apply IH.
Qed.

Lemma truthy_query_given o :
  plain o → truthy_query o = true ↔ ∃ q, given o q.
Proof.
  unfold given, plain. intros Hplain. destruct o as [v|]; simpl.
  - destruct (Hplain v eq_refl) as [s ->].
    destruct (String.eqb_spec s "") as [->|Hs]; simpl; split; try done.
    + intros (q & [= <-] & Hq). done.
    + intros _. by exists s.
  - split; [done | by intros (q & ? & _)].
Qed.

Lemma criterion_spec lower o x :
  plain o →
  ∃ r,
    (if truthy_query o
     then t ← toLowerCaseV lower (VStr x);
          q ← toLowerCaseQ lower (default (QStr "") o);
          Ok (includes t q)
     else Ok true) = Ok r ∧
    (r = true ↔ ∀ q, given o q → containsIgnoringCase lower (VStr x) q).
Proof.
  intros Hplain. destruct (truthy_query o) eqn:Ho.
  - apply truthy_query_given in Ho as (q & Hq); [|done].
    pose proof Hq as [-> _]. simpl. eexists. split; [reflexivity|].
    rewrite includes_spec. split.
    + intros (before & after & Heq) q' [[= <-] _]. by exists x, before, after.
    + intros H. destruct (H q Hq) as (x' & before & after & [= <-] & Heq).
      eauto.
  - exists true. split; [done|]. split; [|done]. intros _ q Hq.
    assert (truthy_query o = true) by (apply truthy_query_given; eauto).
    congruence.
Qed.

Lemma searchMatches_spec lower title author b :
  plain title → plain author → wellTyped b →
  ∃ r, searchMatchesWith lower title author b = Ok r ∧
       (r = true ↔ meetsCriteria lower title author b).
Proof.
  intros Htitle Hauthor (bt & ba & Hbt & Hba).
  unfold searchMatchesWith, meetsCriteria. rewrite Hbt, Hba.
  destruct (criterion_spec lower title bt Htitle) as (rt & -> & Hrt).
  destruct (criterion_spec lower author ba Hauthor) as (ra & -> & Hra).
  exists (rt && ra). split; [done|].
  rewrite andb_true_iff, Hrt, Hra. done.
Qed.

Lemma filterR_selects lower title author bks :
  plain title → plain author → Forall wellTyped bks →
  ∃ found, filterR (searchMatchesWith lower title author) bks = Ok found ∧
           selects (meetsCriteria lower title author) bks found.
Proof.
  intros Htitle Hauthor.
  induction 1 as [|b bks Hb _ (found & Hfound & Hsel)]; simpl.
  - exists []. split; [done | constructor].
  - destruct (searchMatches_spec lower title author b Htitle Hauthor Hb)
      as (r & -> & Hr).
    rewrite Hfound. unfold mbind, result_bind. eexists. split; [done|].
    destruct r.
    + apply selects_keep; [by apply Hr | done].
    + apply selects_skip; [|done]. intros H%Hr. done.
Qed.

(** C8 (as stated: violated).  The array can hold a title that is not a
    string: after the update of book 1 with the title 1984, a number, the
    search for the title 'hobbit' is not answered 200 with 'The Hobbit',
    which is in the array: the filter throws on book 1 and the error
    handler answers 500.  So does, on the seeded array, a search whose
    title parameter is repeated and therefore an array. *)
Lemma search_by_title_500 :
  reachable numericTitle ∧
  Book.make 2 (VStr "The Hobbit") (VStr "J.R.R. Tolkien") ∈
    store numericTitle ∧
  (app (SEARCH {[ "title" := QStr "hobbit" ]}) numericTitle).1 =
    Response 500 (Error "Something went wrong on the server.") ∧
  (app (SEARCH {[ "title" := QArr [QStr "hobbit"; QStr "1984"] ]}) initial).1 =
    Response 500 (Error "Something went wrong on the server.").
Proof.
  split; [apply reachable_step, reachable_initial|].
  split; [vm_compute; right; left|]. split; vm_compute; reflexivity.
Qed.

(** C8 (amended).  Whatever function [String.prototype.toLowerCase] is: a
    search in which the title and the author are both absent or empty is
    answered 400.  When each of them is absent or a single string, at
    least one is given, and the titles and authors of the array are
    strings, the books found are exactly those that meet the criteria
    (each given parameter occurs, case ignored, in the field of its name),
    in the order of the array: when there is none the answer is 404,
    otherwise it is 200 with these books.  The array is never changed.
    With the lower case of ASCII letters, the title 'hobbit' finds 'The
    Hobbit' in the seeded array. *)
Theorem search_answers lower req bks :
  let title := query req !! "title" in
  let author := query req !! "author" in
  ((title = None ∨ title = Some (QStr "")) →
   (author = None ∨ author = Some (QStr "")) →
   searchBooksWith lower req bks =
     (Ok (Response 400
           (Error "Please provide at least a title or author for search")),
      bks)) ∧
  (plain title → plain author →
   (∃ q, given title q) ∨ (∃ q, given author q) →
   Forall wellTyped bks →
   ∃ found,
     selects (meetsCriteria lower title author) bks found ∧
     (found = [] →
      searchBooksWith lower req bks =
        (Ok (Response 404 (Error "Books not found for search")), bks)) ∧
     (found ≠ [] →
      searchBooksWith lower req bks =
        (Ok (Response 200 (Books found)), bks))) ∧
  (lowersAscii lower →
   searchBooksWith lower (SEARCH {[ "title" := QStr "hobbit" ]}) books =
     (Ok (Response 200
           (Books [Book.make 2 (VStr "The Hobbit") (VStr "J.R.R. Tolkien")])),
      books)).
Proof.
  intros title author. split; [|split].
  - unfold searchBooksWith. fold title author.
    by intros [-> | ->] [-> | ->].
  - unfold searchBooksWith. fold title author.
    intros Htitle Hauthor Hgiven Htyped.
    rewrite <- !truthy_query_given in Hgiven by done.
    destruct (filterR_selects lower title author bks Htitle Hauthor Htyped)
      as (found & -> & Hsel).
    exists found. split; [done|].
    assert (negb (truthy_query title) && negb (truthy_query author) = false)
      as ->.
    { destruct Hgiven as [-> | ->]; [done|]. by rewrite andb_false_r. }
    split.
    + by intros ->.
    + intros Hne. destruct found; done.
  - intros Hlower. vm_compute.
    rewrite !Hlower by reflexivity. vm_compute. reflexivity.
Qed.

Lemma search_examples :
  searchBooks (SEARCH {[ "title" := QStr "hobbit" ]}) books =
    (Ok (Response 200
          (Books [Book.make 2 (VStr "The Hobbit") (VStr "J.R.R. Tolkien")])),
     books) ∧
  searchBooks
    (SEARCH {[ "title" := QStr "19"; "author" := QStr "ORWELL" ]}) books =
    (Ok (Response 200
          (Books [Book.make 1 (VStr "1984") (VStr "George Orwell")])),
     books) ∧
  searchBooks (SEARCH {[ "author" := QStr "Herbert" ]}) books =
    (Ok (Response 404 (Error "Books not found for search")), books) ∧
  (router (SEARCH {[ "title" := QArr [QStr "hobbit"; QStr "1984"] ]}) books).1 =
    Throw "TypeError".
Proof. repeat split; vm_compute; reflexivity. Qed.

Lemma search_answers_witness :
  searchBooks (SEARCH ∅) books =
    (Ok (Response 400
          (Error "Please provide at least a title or author for search")),
     books) ∧
  (∃ found,
     selects (meetsCriteria toLowerCase (Some (QStr "hobbit")) None)
             books found ∧
     (found = [] →
      searchBooks (SEARCH {[ "title" := QStr "hobbit" ]}) books =
        (Ok (Response 404 (Error "Books not found for search")), books)) ∧
     (found ≠ [] →
      searchBooks (SEARCH {[ "title" := QStr "hobbit" ]}) books =
        (Ok (Response 200 (Books found)), books))) ∧
  searchBooks (SEARCH {[ "title" := QStr "hobbit" ]}) books =
    (Ok (Response 200
          (Books [Book.make 2 (VStr "The Hobbit") (VStr "J.R.R. Tolkien")])),
     books).
Proof.
  split; [|split].
  - refine (proj1 (search_answers toLowerCase (SEARCH ∅) books) _ _);
      left; reflexivity.
  - refine (proj1 (proj2 (search_answers toLowerCase
              (SEARCH {[ "title" := QStr "hobbit" ]}) books)) _ _ _ _).
    + intros v [= <-]. by eexists.
    + intros v [=].
    + left. exists "hobbit". split; [reflexivity | discriminate].
    + repeat constructor; eexists _, _; split; reflexivity.
  - refine (proj2 (proj2 (search_answers toLowerCase (SEARCH ∅) books)) _).
    intros s _. reflexivity.
Defined.

(** ** Rate limiting *)

Lemma limiter_fresh req h :
  (∀ w, h !! ip req = Some w → resetTime w ≤ now req) →
  limiter req h =
    (None, <[ip req := Client 1 (now req + 60 * 1000)]> h).
Proof.
  intros Hfresh. unfold limiter, rateLimit. cbn [windowMs max message].
  destruct (h !! ip req) as [w|] eqn:Hw; [|reflexivity].
  specialize (Hfresh w eq_refl).
  destruct (Z.leb_spec (resetTime w) (now req)); [reflexivity | lia].
Qed.

Lemma limiter_counted req h k R :
  h !! ip req = Some (Client k R) → now req < R →
  limiter req h = (verdict (k + 1), <[ip req := Client (k + 1) R]> h).
Proof.
  intros Hw Hlive. unfold limiter, rateLimit, verdict, tooManyRequests.
  cbn [windowMs max message]. rewrite Hw. cbn [resetTime totalHits].
  destruct (Z.leb_spec R (now req)); [lia|]. cbn [resetTime totalHits].
  by destruct (15 <? k + 1).
Qed.

Lemma limiter_other req h c :
  ip req ≠ c → (limiter req h).2 !! c = h !! c.
Proof.
  intros Hne. unfold limiter, rateLimit.
  destruct (_ <? _); simpl; by rewrite lookup_insert_ne.
Qed.

Lemma reachesLimiter_true c r :
  reachesLimiter c r = true ↔ ip r = c ∧ malformed r = false.
Proof.
  unfold reachesLimiter.
  rewrite andb_true_iff, bool_decide_eq_true, negb_true_iff. done.
Qed.

Lemma app_hits req st :
  hits (app req st).2 =
    if malformed req then hits st else (limiter req (hits st)).2.
Proof.
  unfold app. destruct (malformed req); [done|].
  destruct (limiter req (hits st)) as [[rej|] h']; [done|].
  by destruct (router req (store st)).
Qed.

Lemma app_passed req st :
  malformed req = false → (limiter req (hits st)).1 = None →
  (app req st).1 = errorHandler (router req (store st)).1 ∧
  store (app req st).2 = (router req (store st)).2.
Proof.
  intros Hparsed. unfold app. rewrite Hparsed.
  destruct (limiter req (hits st)) as [d h']. simpl. intros ->.
  by destruct (router req (store st)).
Qed.

Lemma app_rejected req st r :
  malformed req = false → (limiter req (hits st)).1 = Some r →
  (app req st).1 = r ∧ store (app req st).2 = store st.
Proof.
  intros Hparsed. unfold app. rewrite Hparsed.
  destruct (limiter req (hits st)) as [d h']. simpl. by intros ->.
Qed.

Lemma serve_cons req reqs st :
  (serve (req :: reqs) st).2 = (serve reqs (app req st).2).2.
Proof.
  simpl. destruct (app req st) as [r st']. simpl.
  by destruct (serve reqs st').
Qed.

(** Inside a window of the client that ends at [R] and has counted [k]
    requests, the counter of the client goes up by one with each of its
    requests that reaches the limiter, whatever the other clients do and
    whatever the routes answer. *)
Lemma serve_window c R reqs :
  ∀ st k,
    hits st !! c = Some (Client k R) →
    Forall (λ r, reachesLimiter c r = true → now r < R) reqs →
    hits (serve reqs st).2 !! c =
      Some (Client (k + Z.of_nat (countedFor c reqs)) R).
Proof.
  induction reqs as [|req reqs IH]; intros st k Hw Hlive.
  - simpl. by rewrite Z.add_0_r.
  - apply Forall_cons in Hlive as [Hreq Hrest].
    rewrite serve_cons. cbn [countedFor].
    destruct (reachesLimiter c req) eqn:Hc.
    + apply reachesLimiter_true in Hc as [Hip Hparsed].
      rewrite (IH (app req st).2 (k + 1)); [do 2 f_equal; lia| |done].
      rewrite app_hits, Hparsed. rewrite <- Hip in Hw |- *.
      rewrite (limiter_counted req (hits st) k R Hw); [|apply Hreq; done].
      apply lookup_insert_eq.
    + rewrite (IH (app req st).2 k); [do 2 f_equal; lia| |done].
      rewrite app_hits. destruct (malformed req) eqn:Hparsed; [done|].
      rewrite limiter_other; [done|]. intros Hip.
      assert (reachesLimiter c req = true) by by apply reachesLimiter_true.
      congruence.
Qed.

(** C9 (as stated: violated).  Sixteen requests of one client within one
    window, the second with a body that [express.json()] refuses: that
    request is answered 500 by the error handler before the limiter has
    seen it, so the limiter has counted 15 requests when the 16th arrives
    and passes it on; it is answered 200. *)
Lemma sixteenth_request_passes :
  length burst_garbled = 16%nat ∧
  Forall (λ r, ip r = "203.0.113.7" ∧ 0 ≤ now r < 60 * 1000) burst_garbled ∧
  (serve burst_garbled initial).1 !! 15%nat = Some (Response 200 (Books books)) ∧
  status <$> (serve burst_garbled initial).1 = 200 :: 500 :: replicate 14 200.
Proof.
  split; [reflexivity|]. split.
  - apply (bool_decide_unpack _). vm_compute. exact I.
  - split; vm_compute; reflexivity.
Qed.

(** C9 (amended).  A client's window opens with a request [first] that
    finds no window of that client still running.  Among the requests of
    the client that reach the limiter (their body, if any, parses) before
    the 60 seconds of the window are over, whatever other clients send in
    between: a request that comes after fewer than 15 of them is passed on
    and answered by its route; a request that comes after 15 or more of
    them (the 16th, and the following ones) is answered with status 429
    and the body { error: 'Too many requests. Slow down.' }, reaches no
    route and leaves the array as it is; and a request of the client that
    arrives once the window is over is passed on to its route. *)
Theorem rate_limit_window first rest st :
  let c := ip first in
  let t0 := now first in
  malformed first = false →
  (∀ w, hits st !! c = Some w → resetTime w ≤ t0) →
  Forall (λ r, reachesLimiter c r = true → t0 ≤ now r < t0 + 60 * 1000)
         rest →
  (∀ pre r post,
     first :: rest = pre ++ r :: post →
     reachesLimiter c r = true →
     let before := (serve pre st).2 in
     ((countedFor c pre < 15)%nat →
      (app r before).1 = errorHandler (router r (store before)).1 ∧
      store (app r before).2 = (router r (store before)).2) ∧
     ((15 ≤ countedFor c pre)%nat →
      (app r before).1 = tooManyRequests ∧
      store (app r before).2 = store before)) ∧
  (∀ next,
     reachesLimiter c next = true → t0 + 60 * 1000 ≤ now next →
     let after := (serve (first :: rest) st).2 in
     (app next after).1 = errorHandler (router next (store after)).1 ∧
     store (app next after).2 = (router next (store after)).2).
Proof.
  intros c t0 Hparsed Hfresh Hwindow.
  assert (reachesLimiter c first = true) as Hfirst
    by by apply reachesLimiter_true.
  assert (hits (app first st).2 !! c = Some (Client 1 (t0 + 60 * 1000)))
    as Hopen.
  { rewrite app_hits, Hparsed, (limiter_fresh first (hits st) Hfresh).
    apply lookup_insert_eq. }
  assert (∀ l, Forall (λ r, reachesLimiter c r = true →
                            t0 ≤ now r < t0 + 60 * 1000) l →
               hits (serve (first :: l) st).2 !! c =
                 Some (Client (Z.of_nat (countedFor c (first :: l)))
                              (t0 + 60 * 1000))) as Hrun.
  { intros l Hl. rewrite serve_cons.
    rewrite (serve_window c (t0 + 60 * 1000) l _ 1 Hopen).
    - cbn [countedFor]. rewrite Hfirst. do 2 f_equal. lia.
    - eapply Forall_impl; [exact Hl|]. simpl. intros r Hr Hc.
      specialize (Hr Hc). lia. }
  split.
  - intros pre r post Hsplit Hr before.
    pose proof Hr as [Hip Hrparsed]%reachesLimiter_true.
    destruct pre as [|first' pre].
    + injection Hsplit as <- _. subst before. simpl. split; [|simpl; lia].
      intros _. apply app_passed; [done|].
      by rewrite (limiter_fresh first (hits st) Hfresh).
    + injection Hsplit as <- Hrest.
      assert (Forall (λ r, reachesLimiter c r = true →
                           t0 ≤ now r < t0 + 60 * 1000) (pre ++ r :: post))
        as Hall by by rewrite <- Hrest.
      apply Forall_app in Hall as [Hpre Hlast].
      apply Forall_cons in Hlast as [Hnow _]. specialize (Hnow Hr).
      specialize (Hrun pre Hpre). fold before in Hrun.
      rewrite <- Hip in Hrun.
      pose proof (limiter_counted r (hits before) _ _ Hrun) as Hlim.
      rewrite Hip in Hlim. specialize (Hlim ltac:(lia)).
      unfold verdict in Hlim. split; intros Hcount.
      * apply app_passed; [done|]. rewrite Hlim.
        destruct (Z.ltb_spec 15 (Z.of_nat (countedFor c (first :: pre)) + 1));
          [lia | done].
      * apply app_rejected; [done|]. rewrite Hlim.
        destruct (Z.ltb_spec 15 (Z.of_nat (countedFor c (first :: pre)) + 1));
          [done | lia].
  - intros next [Hip Hnparsed]%reachesLimiter_true Hlate after.
    apply app_passed; [done|]. rewrite limiter_fresh; [done|].
    rewrite Hip. subst after. rewrite (Hrun rest Hwindow).
    intros w [= <-]. simpl. lia.
Qed.

Lemma rate_limit_window_witness :
  let c := "203.0.113.7" in
  let before := (serve (take 16 burst) initial).2 in
  (app (ping c 15000) before).1 = tooManyRequests ∧
  store (app (ping c 15000) before).2 = store before ∧
  (app (ping c 60000) (serve burst initial).2).1 = Response 200 (Books books).
Proof.
  intros c before.
  destruct (rate_limit_window (ping c 0) (tail burst) initial)
    as [Hrun Hnext].
  - reflexivity.
  - intros w Hw. vm_compute in Hw. discriminate Hw.
  - apply (bool_decide_unpack _). vm_compute. exact I.
  - destruct (Hrun (take 16 burst) (ping c 15000) []) as [_ Hrejected];
      [reflexivity | reflexivity |].
    destruct Hrejected as [H429 Hstore]; [vm_compute; lia|].
    split; [exact H429|]. split; [exact Hstore|].
    destruct (Hnext (ping c 60000)) as [Hpassed _];
      [reflexivity | vm_compute; discriminate |].
    etransitivity; [exact Hpassed|]. vm_compute. reflexivity.
Defined.

Lemma burst_statuses :
  status <$> (serve (burst ++ [ping "203.0.113.7" 60000]) initial).1 =
    replicate 16 200 ++ [429; 200].
Proof. vm_compute. reflexivity. Qed.

(** * Further properties of the routes *)

(** ** Guards *)

(** X1. On the four routes behind [requireAuth], a request without an
    authorization header, or with an empty one, is answered 401 and the
    array is left as it is; and 401 is never the answer to anything else:
    any non-empty header passes the guard. *)
Theorem unauthorized_iff req bks :
  let token := headers req !! "authorization" in
  let guardedRoute :=
    route req ≠ GET_books ∧ route req ≠ GET_books_search ∧
    route req ≠ GET_books_id in
  (guardedRoute ∧ truthy_str token = false →
   router req bks =
     (Ok (Response 401 (Error "Unauthorized. No token provided.")), bks)) ∧
  (status (errorHandler (router req bks).1) = 401 →
   guardedRoute ∧ truthy_str token = false).
Proof.
  intros token guardedRoute. unfold guardedRoute, token. split.
  - intros [(H1 & H2 & H3) Htoken]. unfold router.
    destruct (route req); try done; simpl; unfold requireAuth;
      by rewrite Htoken.
  - unfold router. destruct (route req); simpl;
      unfold requireAuth, requireAdmin, getBooks, searchBooks, searchBooksWith, getBook,
        postBook, postBookWith, putBook, resetBooks, deleteBook;
      split_handler; intros; try lia; repeat split; try done;
      by apply negb_true_iff.
Qed.

Lemma unauthorized_iff_witness :
  router (Request POST_books ∅ "" ∅ dune false "203.0.113.7" 0) books =
    (Ok (Response 401 (Error "Unauthorized. No token provided.")), books).
Proof.
  refine (proj1 (unauthorized_iff
                   (Request POST_books ∅ "" ∅ dune false "203.0.113.7" 0) books) _).
  repeat split; discriminate.
Defined.

(** X2. On the two deletion routes, a request whose authorization header
    is present but is not exactly 'Bearer admin-token' is answered 403 and
    the array is left as it is; a request without a header meets
    [requireAuth] first and is answered 401, not 403. *)
Theorem forbidden_without_admin_token req bks :
  route req = DELETE_books_reset ∨ route req = DELETE_books_id →
  headers req !! "authorization" ≠ Some "Bearer admin-token" →
  (truthy_str (headers req !! "authorization") = true →
   router req bks =
     (Ok (Response 403 (Error "Forbidden. Admin access required.")), bks)) ∧
  (truthy_str (headers req !! "authorization") = false →
   router req bks =
     (Ok (Response 401 (Error "Unauthorized. No token provided.")), bks)).
Proof.
  intros Hroute Hadmin. unfold router.
  split; intros Htoken; destruct Hroute as [-> | ->]; simpl;
    unfold requireAuth, requireAdmin; rewrite Htoken; simpl;
    try done; by rewrite bool_decide_true.
Qed.

Lemma forbidden_without_admin_token_witness :
  router (Request DELETE_books_id (bearer "secret") "1" ∅ ∅ false "203.0.113.7" 0)
         books =
    (Ok (Response 403 (Error "Forbidden. Admin access required.")), books).
Proof.
  refine (proj1 (forbidden_without_admin_token
    (Request DELETE_books_id (bearer "secret") "1" ∅ ∅ false "203.0.113.7" 0) books
    _ _) _).
  - right. reflexivity.
  - vm_compute. discriminate.
  - reflexivity.
Defined.

(** ** Statuses and effects *)

Ltac split_router :=
  unfold router; destruct (route _); simpl;
  unfold requireAuth, requireAdmin, getBooks, searchBooks, searchBooksWith, getBook,
    postBook, postBookWith, putBook, resetBooks, deleteBook;
  split_handler.

Lemma router_statuses req bks :
  status (errorHandler (router req bks).1) ∈
    match route req with
    | GET_books => [200]
    | GET_books_search => [200; 400; 404; 500]
    | GET_books_id => [200; 404]
    | POST_books => [201; 400; 401; 409; 500]
    | PUT_books_id => [200; 400; 401; 404]
    | DELETE_books_reset => [204; 401; 403]
    | DELETE_books_id => [204; 401; 403; 404]
    end.
Proof. split_router; set_solver. Qed.

(** X3. The statuses the application can answer with.  A request whose
    body [express.json()] refuses is answered 500 by the error handler,
    on every route.  Any other request is answered 429 by the limiter or
    with one of the statuses of its route; of the routes, only the search
    and the create run code that can throw and end in the 500 of the
    error handler. *)
Theorem route_statuses req st :
  status (app req st).1 ∈
    if malformed req then [500]
    else
      429 ::
      match route req with
      | GET_books => [200]
      | GET_books_search => [200; 400; 404; 500]
      | GET_books_id => [200; 404]
      | POST_books => [201; 400; 401; 409; 500]
      | PUT_books_id => [200; 400; 401; 404]
      | DELETE_books_reset => [204; 401; 403]
      | DELETE_books_id => [204; 401; 403; 404]
      end.
Proof.
  unfold app. destruct (malformed req); [simpl; set_solver|].
  destruct (limiter req (hits st)) as [[rej|] h'] eqn:Hlim.
  - apply (f_equal fst) in Hlim. apply limiter_status in Hlim.
    simpl in *. rewrite Hlim. left.
  - pose proof (router_statuses req (store st)) as H.
    destruct (router req (store st)) as [r bks']. simpl in *. by right.
Qed.

(** X4. A request that is answered with an error status (400 and above:
    by a guard, a handler, the error handler or the limiter) leaves the
    array exactly as it was. *)
Theorem error_leaves_store req st :
  400 ≤ status (app req st).1 → store (app req st).2 = store st.
Proof.
  unfold app. destruct (malformed req); [done|].
  destruct (limiter req (hits st)) as [[rej|] h']; [done|].
  destruct (router req (store st)) as [r bks'] eqn:Hr. simpl.
  assert (r = (router req (store st)).1) as -> by by rewrite Hr.
  assert (bks' = (router req (store st)).2) as -> by by rewrite Hr.
  clear Hr. generalize (store st) as bks. intros bks.
  split_router; intros; lia.
Qed.

Lemma error_leaves_store_witness :
  store (app (POST ∅) initial).2 = books.
Proof. apply (error_leaves_store (POST ∅) initial). vm_compute. discriminate. Defined.

(** X5. The three reading routes never change the array, whatever they
    answer. *)
Theorem reads_leave_store req bks :
  route req = GET_books ∨ route req = GET_books_search ∨
  route req = GET_books_id →
  (router req bks).2 = bks.
Proof.
  intros Hroute. unfold router.
  destruct Hroute as [-> | [-> | ->]];
    unfold getBooks, searchBooks, searchBooksWith, getBook; split_handler.
Qed.

Lemma reads_leave_store_witness :
  (router (SEARCH {[ "author" := QStr "tolkien" ]}) books).2 = books.
Proof.
  apply (reads_leave_store (SEARCH {[ "author" := QStr "tolkien" ]}) books).
  right. left. reflexivity.
Defined.

(** ** Pagination *)

Lemma slice_window {A} (l : list A) (s n : Z) :
  0 ≤ s → 0 ≤ n →
  slice l (Num s) (Num (s + n)) = take (Z.to_nat n) (drop (Z.to_nat s) l).
Proof.
  intros Hs Hn. unfold slice, relativeIndex.
  destruct (Z.ltb_spec s 0); [lia|]. destruct (Z.ltb_spec (s + n) 0); [lia|].
  set (len := Z.of_nat (length l)).
  destruct (Z.le_gt_cases len s) as [Hout|Hin].
  - rewrite !drop_ge by lia. by rewrite !take_nil.
  - rewrite (Z.min_l s) by lia.
    destruct (Z.le_gt_cases len (s + n)) as [Hend|Hend].
    + rewrite Z.min_r by lia.
      rewrite !take_ge; [done | rewrite length_drop; lia..].
    + rewrite Z.min_l by lia. do 2 f_equal. lia.
Qed.

Lemma relativeIndex_bounds (len : Z) (n : number) :
  0 ≤ len → 0 ≤ relativeIndex len n ≤ len.
Proof.
  intros Hlen. unfold relativeIndex.
  destruct n as [|k|[]]; [lia| |lia|lia]. destruct (Z.ltb_spec k 0); lia.
Qed.

Lemma slice_empty {A} (l : list A) (start stop : number) :
  relativeIndex (Z.of_nat (length l)) stop ≤
    relativeIndex (Z.of_nat (length l)) start →
  slice l start stop = [].
Proof.
  intros Hle. unfold slice.
  replace (Z.to_nat _) with 0%nat by lia. apply take_0.
Qed.

Lemma bounds_safe p n :
  1 ≤ p < 2 ^ 53 → 0 ≤ n → p * n < 2 ^ 53 →
  bounds (Num p) (Num n) = (Num ((p - 1) * n), Num ((p - 1) * n + n)).
Proof.
  intros Hp Hn Hpn. unfold bounds. cbn [num_sub num_neg num_add].
  rewrite (roundDouble_safe (p + - (1))) by lia. cbn [num_mul].
  replace (p + - (1)) with (p - 1) by lia.
  rewrite (roundDouble_safe ((p - 1) * n)) by nia. cbn [num_add].
  rewrite roundDouble_safe by nia. done.
Qed.

Lemma bounds_not_finite {A} (l : list A) (page limit : number) :
  page = NaN ∨ limit = NaN ∨
  (∃ s, page = Infinity s) ∨ (∃ s, limit = Infinity s) →
  slice l (bounds page limit).1 (bounds page limit).2 = [].
Proof.
  pose proof (Nat2Z.is_nonneg (length l)) as Hlen.
  intros H. apply slice_empty. unfold bounds. cbn [fst snd].
  assert (num_sub page (Num 1) = NaN ∨ limit = NaN ∨
          (∃ s, num_sub page (Num 1) = Infinity s) ∨
          (∃ s, limit = Infinity s)) as H'.
  { destruct H as [-> | [-> | [[s ->] | [s ->]]]]; eauto 10. }
  clear H. destruct (num_sub page (Num 1)) as [|a|t];
    destruct limit as [|b|s]; cbn [num_mul num_add]; try done.
  - exfalso. destruct H' as [? | [? | [[? ?] | [? ?]]]]; done.
  - destruct (a =? 0); [done|]. cbn [num_add].
    destruct s, (0 <? a); cbn; lia.
  - destruct (b =? 0); [done|]. cbn [num_add]. done.
  - destruct t, s; cbn; lia.
Qed.

Lemma list_page_eq req bks p n :
  parseInt (query_or req "page" "1") = Num p →
  parseInt (query_or req "limit" "10") = Num n →
  1 ≤ p < 2 ^ 53 → 0 ≤ n → p * n < 2 ^ 53 →
  getBooks req bks =
    (Ok (Response 200
          (Books (take (Z.to_nat n) (drop (Z.to_nat ((p - 1) * n)) bks)))),
     bks).
Proof.
  intros Hpage Hlimit Hp Hn Hpn. unfold getBooks. rewrite Hpage, Hlimit.
  change (slice bks _ _)
    with (slice bks (bounds (Num p) (Num n)).1 (bounds (Num p) (Num n)).2).
  rewrite (bounds_safe p n Hp Hn Hpn). cbn [fst snd].
  rewrite slice_window by nia. done.
Qed.

(** X6. The list route answers 200 and, for a page p >= 1 and a limit
    n >= 0 whose product is below 2^53 (where the arithmetic of doubles
    is exact), with the n books that follow the first (p - 1) * n of the
    array (fewer when the array ends before). *)
Theorem list_page req bks p n :
  parseInt (query_or req "page" "1") = Num p →
  parseInt (query_or req "limit" "10") = Num n →
  1 ≤ p < 2 ^ 53 → 0 ≤ n → p * n < 2 ^ 53 →
  getBooks req bks =
    (Ok (Response 200
          (Books (take (Z.to_nat n) (drop (Z.to_nat ((p - 1) * n)) bks)))),
     bks).
Proof. apply list_page_eq. Qed.

Lemma list_page_witness :
  getBooks (GET "" {[ "page" := QStr "2"; "limit" := QStr "1" ]}) books =
    (Ok (Response 200
          (Books [Book.make 2 (VStr "The Hobbit") (VStr "J.R.R. Tolkien")])),
     books).
Proof.
  apply (list_page (GET "" {[ "page" := QStr "2"; "limit" := QStr "1" ]})
           books 2 1);
    [reflexivity | reflexivity | lia | lia | lia].
Defined.

(** X7. The list route answers 200 with an empty array when the page or
    the limit is not a finite number: it does not start with digits
    (NaN) or is too large for a double (an infinity); and when the page is
    0 and the limit is below 2^53 in absolute value. *)
Theorem list_degenerate req bks :
  let page := parseInt (query_or req "page" "1") in
  let limit := parseInt (query_or req "limit" "10") in
  page = NaN ∨ limit = NaN ∨
  (∃ s, page = Infinity s) ∨ (∃ s, limit = Infinity s) ∨
  (page = Num 0 ∧ ∃ n, limit = Num n ∧ Z.abs n < 2 ^ 53) →
  getBooks req bks = (Ok (Response 200 (Books [])), bks).
Proof.
  intros page limit H. unfold getBooks. fold page limit.
  change (slice bks _ _)
    with (slice bks (bounds page limit).1 (bounds page limit).2).
  destruct H as [H | [H | [H | [H | (-> & n & -> & Hn)]]]];
    [rewrite bounds_not_finite; [done | tauto]..|].
  unfold bounds. cbn [num_sub num_neg num_add fst snd].
  change (roundDouble (0 + - (1))) with (Num (-1)). cbn [num_mul].
  rewrite (roundDouble_safe (-1 * n)) by lia. cbn [num_add].
  replace (-1 * n + n) with 0 by lia. change (roundDouble 0) with (Num 0).
  rewrite slice_empty; [done|]. simpl.
  pose proof (relativeIndex_bounds (Z.of_nat (length bks)) (Num (-1 * n))).
  unfold relativeIndex in *. lia.
Qed.

Lemma list_degenerate_witness :
  getBooks (GET "" {[ "limit" := QStr "ten" ]}) books =
    (Ok (Response 200 (Books [])), books) ∧
  getBooks (GET "" {[ "page" := QStr "0" ]}) books =
    (Ok (Response 200 (Books [])), books) ∧
  getBooks
    (GET "" {[ "limit" := QStr ("1" +:+ String.concat "" (replicate 309 "0")) ]})
    books =
    (Ok (Response 200 (Books [])), books).
Proof.
  split; [|split].
  - apply (list_degenerate (GET "" {[ "limit" := QStr "ten" ]}) books).
    right. left. reflexivity.
  - apply (list_degenerate (GET "" {[ "page" := QStr "0" ]}) books).
    do 4 right. split; [reflexivity|]. exists 10. split; [reflexivity | lia].
  - apply (list_degenerate
             (GET "" {[ "limit" :=
                          QStr ("1" +:+ String.concat "" (replicate 309 "0")) ]})
             books).
    do 3 right. left. exists true. vm_compute. reflexivity.
Defined.

(** X8. Consecutive pages are adjacent: with the same limit n, and where
    the arithmetic of doubles is exact ((p + 1) * n below 2^53), the books
    of page p followed by those of page p + 1 are the 2n books that follow
    the first (p - 1) * n of the array; no book is skipped or repeated. *)
Theorem list_pages_adjacent req req' bks p n :
  parseInt (query_or req "page" "1") = Num p →
  parseInt (query_or req' "page" "1") = Num (p + 1) →
  parseInt (query_or req "limit" "10") = Num n →
  parseInt (query_or req' "limit" "10") = Num n →
  1 ≤ p → p + 1 < 2 ^ 53 → 0 ≤ n → (p + 1) * n < 2 ^ 53 →
  ∃ l l',
    (getBooks req bks).1 = Ok (Response 200 (Books l)) ∧
    (getBooks req' bks).1 = Ok (Response 200 (Books l')) ∧
    l ++ l' = take (Z.to_nat (2 * n)) (drop (Z.to_nat ((p - 1) * n)) bks).
Proof.
  intros Hp Hp' Hn Hn' Hp1 Hp2 Hn0 Hpn.
  rewrite (list_page_eq req bks p n), (list_page_eq req' bks (p + 1) n)
    by first [done | nia].
  eexists _, _. split; [done|]. split; [done|].
  replace (Z.to_nat ((p + 1 - 1) * n))
    with (Z.to_nat ((p - 1) * n) + Z.to_nat n)%nat by nia.
  rewrite <- drop_drop, take_take_drop. f_equal. lia.
Qed.

Lemma list_pages_adjacent_witness :
  ∃ l l',
    (getBooks (GET "" {[ "page" := QStr "1"; "limit" := QStr "1" ]}) books).1 =
      Ok (Response 200 (Books l)) ∧
    (getBooks (GET "" {[ "page" := QStr "2"; "limit" := QStr "1" ]}) books).1 =
      Ok (Response 200 (Books l')) ∧
    l ++ l' = take (Z.to_nat (2 * 1)) (drop (Z.to_nat ((1 - 1) * 1)) books).
Proof.
  apply (list_pages_adjacent
           (GET "" {[ "page" := QStr "1"; "limit" := QStr "1" ]})
           (GET "" {[ "page" := QStr "2"; "limit" := QStr "1" ]}) books 1 1);
    [reflexivity | reflexivity | reflexivity | reflexivity
    | lia | lia | lia | lia].
Defined.

(** ** Reset *)

Lemma slice_nil {A} (start stop : number) : slice (@nil A) start stop = [].
Proof. unfold slice. by rewrite drop_nil, take_nil. Qed.

(** X9. With the admin token the reset route answers 204 without a body
    and empties the array, whatever it held.  On the empty array every
    list request is answered with an empty array, every read by id with
    404, and a search with 400 or 404: nothing is found and nothing
    throws. *)
Theorem reset_then_reads req bks :
  route req = DELETE_books_reset →
  headers req !! "authorization" = Some "Bearer admin-token" →
  router req bks = (Ok (Response 204 NoBody), []) ∧
  ∀ req',
    (route req' = GET_books →
     router req' [] = (Ok (Response 200 (Books [])), [])) ∧
    (route req' = GET_books_id →
     router req' [] = (Ok (Response 404 (Error "Book not found")), [])) ∧
    (route req' = GET_books_search →
     router req' [] =
       (Ok (Response 400
             (Error "Please provide at least a title or author for search")),
        []) ∨
     router req' [] =
       (Ok (Response 404 (Error "Books not found for search")), [])).
Proof.
  intros Hroute Htoken. split.
  - unfold router. rewrite Hroute. simpl.
    unfold requireAuth, requireAdmin. rewrite Htoken. reflexivity.
  - intros req'. unfold router. repeat split; intros ->.
    + unfold getBooks. by rewrite slice_nil.
    + done.
    + unfold searchBooks, searchBooksWith. simpl. destruct (_ && _); eauto.
Qed.

Lemma reset_then_reads_witness :
  router (Request DELETE_books_reset (bearer "admin-token") "" ∅ ∅
            false "203.0.113.7" 0) books =
    (Ok (Response 204 NoBody), []) ∧
  router (GET "" ∅) [] = (Ok (Response 200 (Books [])), []).
Proof.
  destruct (reset_then_reads
    (Request DELETE_books_reset (bearer "admin-token") "" ∅ ∅ false
             "203.0.113.7" 0)
    books) as [Hreset Hreads]; [reflexivity | reflexivity |].
  split; [exact Hreset|].
  apply (Hreads (GET "" ∅)). reflexivity.
Defined.

(** ** Reading and deleting by id *)

Lemma findIndex_first n pre b post :
  Forall (λ x, Num (Book.id x) ≠ n) pre → Num (Book.id b) = n →
  findIndex (hasId n) (pre ++ b :: post) = Some (length pre).
Proof.
  intros Hpre Hb. induction Hpre as [|x pre Hx _ IH]; simpl.
  - subst n. unfold hasId, strictEq. by rewrite Z.eqb_refl.
  - by rewrite (hasId_false _ _ Hx), IH.
Qed.

(** In an array with unique ids a book splits the array into books that
    all carry another id. *)
Lemma split_unique bks b :
  NoDup (Book.id <$> bks) → b ∈ bks →
  ∃ pre post,
    bks = pre ++ b :: post ∧
    Forall (λ x, Num (Book.id x) ≠ Num (Book.id b)) pre ∧
    Forall (λ x, Num (Book.id x) ≠ Num (Book.id b)) post.
Proof.
  intros Hnodup (pre & post & ->)%list_elem_of_split.
  exists pre, post. split; [done|].
  rewrite fmap_app, fmap_cons in Hnodup.
  apply NoDup_app in Hnodup as (_ & Hpre & Hpost).
  apply NoDup_cons in Hpost as [Hpost _].
  split; apply Forall_forall; intros x Hx [= Heq].
  - apply (Hpre (Book.id x)); [by apply list_elem_of_fmap_2|].
    rewrite Heq. left.
  - apply Hpost. rewrite <- Heq. by apply list_elem_of_fmap_2.
Qed.

(** X10. When the ids of the array are unique, reading by the id of a book
    of the array answers 200 with that book and leaves the array as it
    is. *)
Theorem get_by_id_unique req bks b :
  NoDup (Book.id <$> bks) → b ∈ bks →
  parseInt (params_id req) = Num (Book.id b) →
  getBook req bks = (Ok (Response 200 (OneBook b)), bks).
Proof.
  intros Hnodup Hb Hid.
  destruct (split_unique bks b Hnodup Hb) as (pre & post & -> & Hpre & _).
  unfold getBook. rewrite Hid. by rewrite find_first.
Qed.

Lemma get_by_id_unique_witness :
  getBook (GET "2" ∅) books =
    (Ok (Response 200
          (OneBook (Book.make 2 (VStr "The Hobbit") (VStr "J.R.R. Tolkien")))),
     books).
Proof.
  apply (get_by_id_unique (GET "2" ∅) books).
  - apply (bool_decide_unpack _). vm_compute. exact I.
  - right. left.
  - reflexivity.
Defined.

Lemma deleteBook_first req pre b post :
  Forall (λ x, Num (Book.id x) ≠ parseInt (params_id req)) pre →
  Num (Book.id b) = parseInt (params_id req) →
  deleteBook req (pre ++ b :: post) =
    (Ok (Response 204 NoBody), pre ++ post).
Proof.
  intros Hpre Hb. unfold deleteBook.
  rewrite (findIndex_first _ _ _ _ Hpre Hb). by rewrite delete_middle.
Qed.

(** X11. Deleting by an id that some book carries answers 204 without a
    body and removes the first book with that id, and only it: the books
    before and after it stay, in their order. *)
Theorem delete_removes_first req pre b post :
  Forall (λ x, Num (Book.id x) ≠ parseInt (params_id req)) pre →
  Num (Book.id b) = parseInt (params_id req) →
  deleteBook req (pre ++ b :: post) =
    (Ok (Response 204 NoBody), pre ++ post).
Proof. apply deleteBook_first. Qed.

Lemma delete_removes_first_witness :
  deleteBook (DELETE "2") books =
    (Ok (Response 204 NoBody),
     [Book.make 1 (VStr "1984") (VStr "George Orwell")]).
Proof.
  apply (delete_removes_first (DELETE "2")
           [Book.make 1 (VStr "1984") (VStr "George Orwell")]
           (Book.make 2 (VStr "The Hobbit") (VStr "J.R.R. Tolkien")) []).
  - repeat constructor. vm_compute. discriminate.
  - reflexivity.
Defined.

(** X12. When the ids of the array are unique, a book that has been
    deleted is gone: after the deletion, reading, updating (past the test
    on the id of the body) and deleting by its id are answered 404, and
    the ids of the array are still unique. *)
Theorem deleted_is_gone req bks b :
  NoDup (Book.id <$> bks) → b ∈ bks →
  parseInt (params_id req) = Num (Book.id b) →
  let bks' := (deleteBook req bks).2 in
  (deleteBook req bks).1 = Ok (Response 204 NoBody) ∧
  NoDup (Book.id <$> bks') ∧
  getBook req bks' = (Ok (Response 404 (Error "Book not found")), bks') ∧
  deleteBook req bks' = (Ok (Response 404 (Error "Book not found")), bks') ∧
  (truthy (field (body req) "id") &&
     strictNe (field (body req) "id") (parseInt (params_id req)) = false →
   putBook req bks' = (Ok (Response 404 (Error "Book not found")), bks')).
Proof.
  intros Hnodup Hb Hid.
  destruct (split_unique bks b Hnodup Hb) as (pre & post & -> & Hpre & Hpost).
  rewrite <- Hid in Hpre, Hpost.
  rewrite (deleteBook_first req pre b post Hpre) by done. cbn [fst snd].
  assert (Forall (λ x, Num (Book.id x) ≠ parseInt (params_id req))
            (pre ++ post)) as Hgone by by apply Forall_app.
  split; [done|]. split.
  { rewrite fmap_app, fmap_cons in Hnodup. rewrite fmap_app.
    apply NoDup_app in Hnodup as (H1 & H2 & H3).
    apply NoDup_cons in H3 as [_ H3]. apply NoDup_app.
    split; [done|]. split; [|done]. intros x Hx Hx'. apply (H2 x Hx). by right. }
  split; [|split].
  - unfold getBook. by rewrite find_hasId_None.
  - unfold deleteBook. by rewrite findIndex_hasId_None.
  - intros Hbody. unfold putBook. rewrite Hbody. by rewrite find_hasId_None.
Qed.

Lemma deleted_is_gone_witness :
  (deleteBook (DELETE "1") books).1 = Ok (Response 204 NoBody) ∧
  getBook (DELETE "1") (deleteBook (DELETE "1") books).2 =
    (Ok (Response 404 (Error "Book not found")),
     (deleteBook (DELETE "1") books).2).
Proof.
  destruct (deleted_is_gone (DELETE "1") books
              (Book.make 1 (VStr "1984") (VStr "George Orwell")))
    as (Hdel & _ & Hget & _).
  - apply (bool_decide_unpack _). vm_compute. exact I.
  - left.
  - reflexivity.
  - split; [exact Hdel | exact Hget].
Defined.

(** ** Updates *)

Lemma putBook_shape req bks :
  (putBook req bks).2 = bks ∨
  ∃ b b',
    find (hasId (parseInt (params_id req))) bks = Some b ∧
    b' = Book.make (Book.id b)
           (or_else (field (body req) "title") (Book.title b))
           (or_else (field (body req) "author") (Book.author b)) ∧
    putBook req bks =
      (Ok (Response 200 (OneBook b')),
       assignFound (hasId (parseInt (params_id req))) b' bks).
Proof.
  unfold putBook. destruct (_ && _); [by left|].
  destruct (find _ bks) as [b|] eqn:Hfind; [|by left].
  right. by eexists _, _.
Qed.

(** X13. An update never changes an id, nor the number or the order of
    the books: whatever the request, the ids of the array after it are the
    ids before it. *)
Theorem update_keeps_ids req bks :
  Book.id <$> (putBook req bks).2 = Book.id <$> bks ∧
  length (putBook req bks).2 = length bks.
Proof.
  destruct (putBook_shape req bks) as [-> | (b & b' & Hfind & -> & ->)];
    [done|].
  by apply (assignFound_ids _ b).
Qed.

Lemma find_assignFound {A} (f : A → bool) (x x' : A) l :
  find f l = Some x → f x' = true →
  find f (assignFound f x' l) = Some x' ∧
  assignFound f x' (assignFound f x' l) = assignFound f x' l.
Proof.
  intros Hfind Hx'. induction l as [|y l IH]; cbn [find assignFound] in *;
    [done|].
  destruct (f y) eqn:Hy; cbn [find assignFound].
  - by rewrite Hx'.
  - rewrite Hy. destruct (IH Hfind) as [-> ->]. done.
Qed.

Lemma or_else_twice a b : or_else a (or_else a b) = or_else a b.
Proof. unfold or_else. by destruct (truthy a) eqn:Ha; rewrite ?Ha. Qed.

(** X14. An update is idempotent: sending the same update a second time
    gives the same answer and leaves the array as the first one left
    it. *)
Theorem update_idempotent req bks :
  putBook req (putBook req bks).2 = putBook req bks.
Proof.
  destruct (putBook_shape req bks) as [Hsame | (b & b' & Hfind & Hb' & Hput)].
  - by rewrite Hsame.
  - rewrite Hput. cbn [snd]. unfold putBook.
    destruct (_ && _) eqn:Hid; [by unfold putBook in Hput; rewrite Hid in Hput|].
    assert (hasId (parseInt (params_id req)) b' = true) as Hb'id.
    { apply find_some in Hfind as [_ Hb]. subst b'. exact Hb. }
    destruct (find_assignFound _ b b' bks Hfind Hb'id) as [Hfind' Hagain].
    rewrite Hfind'.
    assert (Book.make (Book.id b')
              (or_else (field (body req) "title") (Book.title b'))
              (or_else (field (body req) "author") (Book.author b')) = b')
      as ->.
    { subst b'. cbn [Book.id Book.title Book.author].
      by rewrite !or_else_twice. }
    by rewrite Hagain.
Qed.

(** ** Creates *)

Lemma postBook_201 req bks b bks' :
  postBook req bks = (Ok (Response 201 (OneBook b)), bks') →
  b = Book.make (Z.of_nat (length bks) + 1)
        (field (body req) "title") (field (body req) "author") ∧
  bks' = bks ++ [b] ∧
  truthy (field (body req) "id") = false ∧
  truthy (field (body req) "title") = true ∧
  truthy (field (body req) "author") = true.
Proof.
  unfold postBook, postBookWith.
  destruct (truthy (field (body req) "id")); [done|].
  destruct (truthy (field (body req) "title")); [|done].
  destruct (truthy (field (body req) "author")); [|done]. simpl.
  destruct (findR _ bks) as [[dup|]|e]; try done.
  intros [= <- <-]. done.
Qed.

(** X15. The create handler answers 400 exactly when the body has a
    truthy id, or a title or an author that is absent or falsy; the array
    is then left as it is.  The test on the id comes first. *)
Theorem create_400_iff req bks :
  (truthy (field (body req) "id") = true ∨
   truthy (field (body req) "title") = false ∨
   truthy (field (body req) "author") = false) ↔
  ∃ msg, postBook req bks = (Ok (Response 400 (Error msg)), bks).
Proof.
  unfold postBook, postBookWith. split.
  - intros [-> | H]; [by eexists|].
    destruct (truthy (field (body req) "id")); [by eexists|].
    destruct H as [-> | ->]; [by eexists|]. rewrite orb_true_r. by eexists.
  - intros [msg H].
    destruct (truthy (field (body req) "id")); [by left|]. right.
    destruct (truthy (field (body req) "title")); [|by left]. right.
    destruct (truthy (field (body req) "author")); [|done]. simpl in H.
    destruct (findR _ bks) as [[dup|]|e]; done.
Qed.

(** X16. A book that has just been created can be read back: when no book
    of the array carries the id the create assigns (the length plus one),
    reading by the id of the created book answers 200 with that book. *)
Theorem create_then_get req req' bks b bks' :
  Forall (λ x, Book.id x ≠ Z.of_nat (length bks) + 1) bks →
  postBook req bks = (Ok (Response 201 (OneBook b)), bks') →
  parseInt (params_id req') = Num (Book.id b) →
  getBook req' bks' = (Ok (Response 200 (OneBook b)), bks').
Proof.
  intros Hfree (Hb & -> & _)%postBook_201 Hid.
  unfold getBook. rewrite Hid, find_first; [done| |done].
  eapply Forall_impl; [exact Hfree|]. intros x Hx [= Heq]. apply Hx.
  rewrite Heq, Hb. done.
Qed.

Lemma create_then_get_witness :
  getBook (GET "3" ∅) (postBook (POST dune) books).2 =
    (Ok (Response 200
          (OneBook (Book.make 3 (VStr "Dune") (VStr "Frank Herbert")))),
     (postBook (POST dune) books).2).
Proof.
  apply (create_then_get (POST dune) (GET "3" ∅) books).
  - repeat constructor; vm_compute; discriminate.
  - reflexivity.
  - reflexivity.
Defined.

(** ** Ids over a run *)

Lemma app_dense req st :
  route req ≠ DELETE_books_id → dense (store st) →
  dense (store (app req st).2).
Proof.
  intros Hroute Hd. unfold app. destruct (malformed req); [done|].
  destruct (limiter req (hits st)) as [[rej|] h']; [done|].
  pose proof (router_dense req (store st) Hroute Hd) as Hd'.
  by destruct (router req (store st)).
Qed.

Lemma serve_dense reqs st :
  Forall (λ r, route r ≠ DELETE_books_id) reqs → dense (store st) →
  dense (store (serve reqs st).2).
Proof.
  intros Hreqs. revert st.
  induction Hreqs as [|req reqs Hreq _ IH]; intros st Hd; simpl; [done|].
  pose proof (app_dense req st Hreq Hd) as Hd'.
  destruct (app req st) as [r st']. specialize (IH st' Hd').
  by destruct (serve reqs st') as [rs st''].
Qed.

(** X17. As long as no single book is deleted (lists, searches, reads,
    creates, updates and resets only, any of them failing or not), the
    array holds the ids 1, 2, ..., n in this order; in particular the ids
    are unique. *)
Theorem ids_unique_without_single_delete reqs :
  Forall (λ r, route r ≠ DELETE_books_id) reqs →
  let bks := store (serve reqs initial).2 in
  Book.id <$> bks = seqZ 1 (Z.of_nat (length bks)) ∧
  NoDup (Book.id <$> bks).
Proof.
  intros Hreqs bks.
  assert (dense bks) as Hd by (apply serve_dense; done).
  split; [exact Hd | by apply dense_NoDup].
Qed.

Lemma ids_unique_without_single_delete_witness :
  NoDup (Book.id <$> store (serve [POST dune; PUT "1" hobbit] initial).2).
Proof.
  apply (ids_unique_without_single_delete [POST dune; PUT "1" hobbit]).
  repeat constructor; discriminate.
Defined.

(** X18. After a run without the deletion of a single book, a create that
    succeeds returns an id that is greater than the id of every book of
    the array. *)
Theorem created_id_above_stored reqs req b :
  Forall (λ r, route r ≠ DELETE_books_id) reqs →
  let st := (serve reqs initial).2 in
  (app req st).1 = Response 201 (OneBook b) →
  ∀ old, old ∈ store st → Book.id old < Book.id b.
Proof.
  intros Hreqs st Hcreated old Hold.
  assert (dense (store st)) as Hd by (apply serve_dense; done).
  destruct (app_201 req st) as (t & a & Hb & _); [by rewrite Hcreated|].
  rewrite Hcreated in Hb. injection Hb as ->. simpl.
  by apply dense_fresh.
Qed.

Lemma created_id_above_stored_witness :
  Book.id (Book.make 3 (VStr "Dune") (VStr "Frank Herbert")) <
  Book.id (Book.make 4 (VStr "Emma") (VStr "Jane Austen")).
Proof.
  apply (created_id_above_stored [POST dune]
           (Request POST_books (bearer "secret") "" ∅ emma false
                    "198.51.100.2" 0)).
  - repeat constructor; discriminate.
  - vm_compute. reflexivity.
  - vm_compute. right. right. left.
Defined.

Lemma dense_last pre b :
  dense (pre ++ [b]) →
  dense pre ∧ Book.id b = Z.of_nat (length pre) + 1.
Proof.
  unfold dense. rewrite fmap_app, length_app, Nat2Z.inj_add. simpl.
  rewrite seqZ_app by lia. change (Z.of_nat 1) with 1.
  rewrite (seqZ_cons (1 + Z.of_nat (length pre)) 1) by lia.
  change (seqZ (Z.succ (1 + Z.of_nat (length pre))) (Z.pred 1)) with (@nil Z).
  intros [H1 H2]%app_inj_2; [|done]. split; [done|].
  injection H2 as ->. lia.
Qed.

(** X19. Ids are reused: in an array that holds the ids 1..n in order,
    deleting the last book answers 204 and removes it, and the next create
    that succeeds gives the new book the id of the deleted one. *)
Theorem last_id_reused req pre b :
  dense (pre ++ [b]) →
  parseInt (params_id req) = Num (Book.id b) →
  deleteBook req (pre ++ [b]) = (Ok (Response 204 NoBody), pre) ∧
  ∀ req' created bks',
    postBook req' pre = (Ok (Response 201 (OneBook created)), bks') →
    Book.id created = Book.id b.
Proof.
  intros Hd Hid. pose proof (dense_NoDup _ Hd) as Hnodup.
  destruct (dense_last pre b Hd) as [Hpre Hb]. split.
  - rewrite (deleteBook_first req pre b []); [by rewrite app_nil_r| |done].
    rewrite fmap_app in Hnodup. apply NoDup_app in Hnodup as (_ & Hdisj & _).
    apply Forall_forall. intros x Hx Heq. rewrite Hid in Heq.
    injection Heq as Heq. apply (Hdisj (Book.id x)).
    + by apply list_elem_of_fmap_2.
    + rewrite Heq. left.
  - intros req' created bks' (-> & _)%postBook_201. simpl. lia.
Qed.

Lemma last_id_reused_witness :
  deleteBook (DELETE "2") books =
    (Ok (Response 204 NoBody),
     [Book.make 1 (VStr "1984") (VStr "George Orwell")]) ∧
  Book.id (Book.make 2 (VStr "Dune") (VStr "Frank Herbert")) = 2.
Proof.
  destruct (last_id_reused (DELETE "2")
              [Book.make 1 (VStr "1984") (VStr "George Orwell")]
              (Book.make 2 (VStr "The Hobbit") (VStr "J.R.R. Tolkien")))
    as [Hdel Hcreate]; [reflexivity | reflexivity |].
  split; [exact Hdel|].
  apply (Hcreate (POST dune) _
           [Book.make 1 (VStr "1984") (VStr "George Orwell");
            Book.make 2 (VStr "Dune") (VStr "Frank Herbert")]).
  reflexivity.
Defined.

(** ** Values that are not strings *)

Lemma filterR_throws {A} (f : A → result bool) l x e :
  x ∈ l → f x = Throw e → ∃ e', filterR f l = Throw e'.
Proof.
  intros Hx Hfx. induction l as [|y l IH]; [by apply elem_of_nil in Hx|].
  simpl. unfold mbind, result_bind.
  destruct (f y) as [r|e1] eqn:Hfy; [|by eexists].
  apply elem_of_cons in Hx as [->|Hx]; [congruence|].
  destruct (IH Hx) as [e' ->]. by eexists.
Qed.

Lemma findR_None_all {A} (f : A → result bool) l x :
  findR f l = Ok None → x ∈ l → f x = Ok false.
Proof.
  induction l as [|y l IH]; intros Hfind Hx; [by apply elem_of_nil in Hx|].
  simpl in Hfind. unfold mbind, result_bind in Hfind.
  destruct (f y) as [[]|] eqn:Hfy; try done.
  apply elem_of_cons in Hx as [->|Hx]; [done | by apply IH].
Qed.

(** X20. Neither the create nor the update checks that a title is a
    string, and an update stores any truthy title.  After an update with
    a truthy title that is not a string (a number, an array, ...) has been
    answered 200, every search by title is answered 500 by the error
    handler, whatever the text searched for. *)
Theorem non_string_title_breaks_search upd pre b post :
  let paramId := parseInt (params_id upd) in
  let bodyId := field (body upd) "id" in
  let title := field (body upd) "title" in
  Forall (λ x, Num (Book.id x) ≠ paramId) pre →
  Num (Book.id b) = paramId →
  truthy bodyId && strictNe bodyId paramId = false →
  truthy title = true → (∀ s, title ≠ VStr s) →
  status (errorHandler (putBook upd (pre ++ b :: post)).1) = 200 ∧
  ∀ req,
    route req = GET_books_search →
    truthy_query (query req !! "title") = true →
    let bks' := (putBook upd (pre ++ b :: post)).2 in
    errorHandler (router req bks').1 =
      Response 500 (Error "Something went wrong on the server.") ∧
    (router req bks').2 = bks'.
Proof.
  intros paramId bodyId title Hpre Hb Hid Htitle Hnostr.
  unfold putBook. fold paramId bodyId title. rewrite Hid.
  rewrite (find_first _ _ _ _ Hpre Hb).
  rewrite (assignFound_first _ _ _ _ _ Hpre Hb). cbn [fst snd].
  split; [done|]. intros req Hroute Hq. cbn zeta.
  unfold router. rewrite Hroute. unfold searchBooks, searchBooksWith. rewrite Hq. simpl negb.
  simpl andb. cbv iota.
  edestruct (filterR_throws
               (searchMatchesWith toLowerCase (query req !! "title")
                                  (query req !! "author")))
    as [e' ->]; [| |done].
  - apply elem_of_app. right. left.
  - unfold searchMatchesWith. rewrite Hq. cbn [Book.title].
    unfold or_else. rewrite Htitle.
    destruct title; try reflexivity. by destruct (Hnostr s).
Qed.

Lemma non_string_title_breaks_search_witness :
  let bks' := (putBook (PUT "1" {[ "title" := VNum 1984 ]}) books).2 in
  errorHandler (router (SEARCH {[ "title" := QStr "hobbit" ]}) bks').1 =
    Response 500 (Error "Something went wrong on the server.").
Proof.
  destruct (non_string_title_breaks_search
              (PUT "1" {[ "title" := VNum 1984 ]}) []
              (Book.make 1 (VStr "1984") (VStr "George Orwell"))
              [Book.make 2 (VStr "The Hobbit") (VStr "J.R.R. Tolkien")])
    as [_ Hsearch].
  - constructor.
  - reflexivity.
  - reflexivity.
  - reflexivity.
  - intros s. vm_compute. discriminate.
  - apply (Hsearch (SEARCH {[ "title" := QStr "hobbit" ]})); reflexivity.
Defined.

(** X21. While the array holds a book whose title is not a string, no
    create succeeds: a create is never answered 201 and never changes the
    array (it is refused with 400 or 409, or ends in the 500 of the error
    handler). *)
Theorem non_string_title_blocks_create req bks b :
  b ∈ bks → (∀ s, Book.title b ≠ VStr s) →
  status (errorHandler (postBook req bks).1) ≠ 201 ∧
  (postBook req bks).2 = bks.
Proof.
  intros Hb Hnostr. unfold postBook, postBookWith.
  destruct (truthy (field (body req) "id")); [done|].
  destruct (negb _ || negb _); [done|].
  destruct (findR _ bks) as [[dup|]|e] eqn:Hfind; try done.
  pose proof (findR_None_all _ _ b Hfind Hb) as Hfb.
  unfold sameTitleAuthor, sameTitleAuthorWith in Hfb.
  destruct (Book.title b); try done. by destruct (Hnostr s).
Qed.

Lemma non_string_title_blocks_create_witness :
  status (errorHandler
            (postBook (POST dune)
               [Book.make 1 (VNum 1984) (VStr "George Orwell")]).1) ≠ 201.
Proof.
  refine (proj1 (non_string_title_blocks_create (POST dune)
            [Book.make 1 (VNum 1984) (VStr "George Orwell")]
            (Book.make 1 (VNum 1984) (VStr "George Orwell")) _ _)).
  - left.
  - intros s. discriminate.
Defined.
